(** * sts-l10n: the record model and its two codecs

    A shallow embedding of [sts-l10n.py], the converter between a JSON
    localization document and the column-oriented tabular format, and the
    properties of its record model, reader, writer, flattener and builder.

    Conventions of the embedding:
    - a Python [str] is a [string]; its characters are the code points below
      256, which is all the [ascii] type holds;
    - a Python [int] is a [Z];
    - a value loaded by [json.load] is a [json] tree; an [OrderedDict] is an
      association list in insertion order;
    - a raised exception is an [Err] result; the shared row iterator is the
      list of rows not yet consumed, threaded through the reader. *)

From Stdlib Require Import String Ascii ZArith Lia Bool Arith List.
Import ListNotations.

Local Open Scope string_scope.
Local Open Scope list_scope.

(** ** Exceptions and results *)

(** What a [CSVFormatException] reports. *)
Inductive format_error : Type :=
| InvalidKeyRow (row : list string)
| InvalidValueRow (row : list string)
| ExpectedRows (number : Z) (read : nat) (values : list string).

(** What a [CSVRecordVerificationFailure] reports. *)
Inductive verification_error : Type :=
| ScalarNotOneValue
| ArrayLengthMismatch (declared_len : Z) (actual : nat)
| InvalidTypeSign (typesig : string).

Inductive exn : Type :=
| ValueError
| IndexError
| TypeError
| CSVEndOfRowsException
| CSVFormatException (e : format_error)
| CSVRecordVerificationFailure (e : verification_error)
| UnexpectedRecordValueException.

Inductive result (A : Type) : Type :=
| OK (a : A)
| Err (e : exn).

Arguments OK {A} a.
Arguments Err {A} e.

Definition bind {A B : Type} (r : result A) (k : A -> result B) : result B :=
  match r with
  | OK a => k a
  | Err e => Err e
  end.

Notation "x <- c ;; k" := (bind c (fun x => k))
  (at level 61, c at next level, right associativity).
Notation "' p <- c ;; k" := (bind c (fun x => let p := x in k))
  (at level 61, p pattern, c at next level, right associativity).

(** ** Strings: the separator, [str.split] and [str.join] *)

Definition colon : ascii := ":"%char.

(** [RecordNameParts.SEP] *)
Definition SEP : string := "::".

(** Prepends a character to the first part of a split. *)
Definition cons_head (c : ascii) (parts : list string) : list string :=
  match parts with
  | [] => [String c ""]
  | h :: t => String c h :: t
  end.

(** [name.split(SEP)]: the parts between the non-overlapping occurrences of
    the separator, each occurrence being the leftmost one in what is left. *)
Fixpoint split (s : string) : list string :=
  match s with
  | "" => [""]
  | String c rest =>
      match rest with
      | "" => [String c ""]
      | String c' rest' =>
          if (Ascii.eqb c colon && Ascii.eqb c' colon)%bool
          then "" :: split rest'
          else cons_head c (split rest)
      end
  end.

(** [SEP.join(parts)] *)
Fixpoint join (parts : list string) : string :=
  match parts with
  | [] => ""
  | [p] => p
  | p :: rest => p ++ SEP ++ join rest
  end.

(** Whether the separator occurs in [s]. *)
Fixpoint contains_sep (s : string) : bool :=
  match s with
  | "" => false
  | String c rest =>
      match rest with
      | "" => false
      | String c' _ => (Ascii.eqb c colon && Ascii.eqb c' colon) || contains_sep rest
      end
  end.

(** Whether [s] ends with a colon. *)
Fixpoint ends_with_colon (s : string) : bool :=
  match s with
  | "" => false
  | String c "" => Ascii.eqb c colon
  | String _ rest => ends_with_colon rest
  end.

(** ** Integers: [str(n)] and [int(s)] *)

Definition digit_char (d : nat) : ascii := ascii_of_nat (48 + d).

Fixpoint digits_of (fuel n : nat) (acc : string) : string :=
  match fuel with
  | O => acc
  | S fuel' =>
      let acc' := String (digit_char (n mod 10)) acc in
      if (n <? 10)%nat then acc' else digits_of fuel' (n / 10) acc'
  end.

(** [str(n)] for the length of a sequence: its decimal digits. *)
Definition str_of_nat (n : nat) : string := digits_of (S n) n "".

(** The characters [int] strips from both ends of its argument: the tab,
    the line feed, the vertical tab, the form feed, the carriage return, the
    space, the next line and the no-break space.  The separators 28 to 31
    are not among them. *)
Definition is_space (c : ascii) : bool :=
  let n := nat_of_ascii c in
  (((9 <=? n) && (n <=? 13)) || (n =? 32) || (n =? 133) || (n =? 160))%nat.

Definition digit_value (c : ascii) : option Z :=
  let n := nat_of_ascii c in
  if ((48 <=? n) && (n <=? 57))%nat then Some (Z.of_nat (n - 48)) else None.

Definition underscore : ascii := "_"%char.
Definition minus_sign : ascii := "-"%char.
Definition plus_sign : ascii := "+"%char.

(** The digits of a literal, a single underscore allowed between two digits.
    [prev] tells whether the previous character was a digit. *)
Fixpoint parse_digits (acc : Z) (prev : bool) (s : string) : option Z :=
  match s with
  | "" => if prev then Some acc else None
  | String c rest =>
      match digit_value c with
      | Some d => parse_digits (acc * 10 + d) true rest
      | None =>
          if Ascii.eqb c underscore && prev
          then parse_digits acc false rest
          else None
      end
  end.

Fixpoint lstrip (s : string) : string :=
  match s with
  | String c rest => if is_space c then lstrip rest else s
  | "" => ""
  end.

Fixpoint rstrip (s : string) : string :=
  match s with
  | "" => ""
  | String c rest =>
      match rstrip rest with
      | "" => if is_space c then "" else String c ""
      | r => String c r
      end
  end.

(** [int(s)] in base 10: surrounding whitespace, an optional sign, digits.
    [None] is the [ValueError] of a literal that is not one.  (The
    interpreter's configurable limit on the number of digits is left out.) *)
Definition py_int (s : string) : option Z :=
  let body := rstrip (lstrip s) in
  match body with
  | "" => None
  | String c ds =>
      if Ascii.eqb c minus_sign then option_map Z.opp (parse_digits 0 false ds)
      else if Ascii.eqb c plus_sign then parse_digits 0 false ds
      else parse_digits 0 false body
  end.

(** ** Python sequences *)

(** [seq[i]] with Python's negative indices; out of range is an
    [IndexError]. *)
Definition py_getitem {A : Type} (seq : list A) (i : Z) : result A :=
  let len := Z.of_nat (length seq) in
  let pos := if (i <? 0)%Z then (len + i)%Z else i in
  if ((0 <=? pos) && (pos <? len))%Z
  then match nth_error seq (Z.to_nat pos) with
       | Some a => OK a
       | None => Err IndexError
       end
  else Err IndexError.

(** A list comprehension whose element expression can raise. *)
Fixpoint map_result {A B : Type} (f : A -> result B) (l : list A)
  : result (list B) :=
  match l with
  | [] => OK []
  | a :: rest => b <- f a ;; bs <- map_result f rest ;; OK (b :: bs)
  end.

(** ** The data model *)

(** A value as [json.load] builds it.  A [str] and a [list] are the two
    [Sequence]s, a [dict] the one [Mapping]; an object keeps the order of its
    members. *)
#[local] Set Warnings "-register-all".

Inductive json : Type :=
| JNull
| JBool (b : bool)
| JInt (z : Z)
| JFloat (literal : string)
| JStr (s : string)
| JArr (items : list json)
| JObj (members : list (string * json)).

(** [isinstance(value, str)] *)
Definition is_str (value : json) : bool :=
  match value with JStr _ => true | _ => false end.

(** [isinstance(value, Sequence)] *)
Definition is_Sequence (value : json) : bool :=
  match value with JStr _ | JArr _ => true | _ => false end.

(** [isinstance(value, Mapping)] *)
Definition is_Mapping (value : json) : bool :=
  match value with JObj _ => true | _ => false end.

(** [RecordNameParts]: a tuple of name parts. *)
Definition RecordNameParts : Type := list string.

(** [RecordNameParts.from_str] *)
Definition from_str (name : string) : RecordNameParts := split name.

(** [RecordNameParts.__str__] *)
Definition to_str (parts : RecordNameParts) : string := join parts.

(** [RecordNameParts.__add__] with a [str] on the right: the string becomes
    the last name part. *)
Definition add_part (parts : RecordNameParts) (other : string)
  : RecordNameParts := parts ++ [other].

Record PureRecord : Type := mkPureRecord {
  name_parts : RecordNameParts;
  value : json
}.

Record CSVRecord : Type := mkCSVRecord {
  type : string;
  key : string;
  values : list json
}.

Definition TYPE_SCALAR : string := "-".
Definition VALUE_ROW_TYPE : string := "".

(** ** [CSVRecord] *)

(** [CSVRecord.get_number_of_values_for_type] *)
Definition get_number_of_values_for_type (typesig : string) : result Z :=
  if String.eqb typesig TYPE_SCALAR then OK 1%Z
  else match py_int typesig with
       | Some n => OK n
       | None => Err ValueError
       end.

(** [CSVRecord.from_pure_record] *)
Definition from_pure_record (record : PureRecord) : result CSVRecord :=
  match value record with
  | JStr s =>
      OK (mkCSVRecord TYPE_SCALAR (to_str (name_parts record)) [JStr s])
  | JArr items =>
      OK (mkCSVRecord (str_of_nat (length items))
                      (to_str (name_parts record)) items)
  | _ => Err UnexpectedRecordValueException
  end.

(** [CSVRecord.to_pure_record] *)
Definition to_pure_record (self : CSVRecord) : result PureRecord :=
  v <- (if String.eqb (type self) TYPE_SCALAR
        then py_getitem (values self) 0
        else OK (JArr (values self))) ;;
  OK (mkPureRecord (from_str (key self)) v).

Definition __verify_scalar (self : CSVRecord) : result unit :=
  if (length (values self) =? 1)%nat then OK tt
  else Err (CSVRecordVerificationFailure ScalarNotOneValue).

Definition __verify_length_sign (self : CSVRecord) : result Z :=
  match py_int (type self) with
  | Some n => OK n
  | None => Err (CSVRecordVerificationFailure (InvalidTypeSign (type self)))
  end.

Definition __verify_array (self : CSVRecord) : result unit :=
  declared_len <- __verify_length_sign self ;;
  if (Z.of_nat (length (values self)) =? declared_len)%Z then OK tt
  else Err (CSVRecordVerificationFailure
              (ArrayLengthMismatch declared_len (length (values self)))).

(** [CSVRecord.verify] *)
Definition verify (self : CSVRecord) : result unit :=
  if String.eqb (type self) TYPE_SCALAR
  then __verify_scalar self
  else __verify_array self.

(** A row handed to the writer: its cells are the values of the record,
    strings or not. *)
Definition out_row : Type := list json.

(** [CSVRecord.write_to_csv]: the rows appended to the writer. *)
Definition write_to_csv (self : CSVRecord) (csv_writer : list out_row)
  : list out_row :=
  (csv_writer ++ [[JStr (type self); JStr (key self)]])
    ++ map (fun v => [JStr VALUE_ROW_TYPE; v]) (values self).

(** ** [CSVRecordReader] *)

(** A row as the [csv] reader yields it: a list of string cells. *)
Definition row : Type := list string.

(** A method that consumes rows of the shared iterator: from the rows left,
    a raised exception or a result with the rows still left. *)
Definition reading (A : Type) : Type := list row -> result (A * list row).

Definition ret {A : Type} (a : A) : reading A := fun rows => OK (a, rows).

Definition lift {A : Type} (r : result A) : reading A :=
  fun rows => match r with OK a => OK (a, rows) | Err e => Err e end.

Definition bind_reading {A B : Type} (m : reading A) (k : A -> reading B)
  : reading B :=
  fun rows => match m rows with
              | OK (a, rows') => k a rows'
              | Err e => Err e
              end.

Notation "x <~ c ;; k" := (bind_reading c (fun x => k))
  (at level 61, c at next level, right associativity).

(** [CSVRecordReader.__verify_values_column] *)
Definition __verify_values_column (values_column : Z) : result unit :=
  if (values_column <? 1)%Z then Err ValueError else OK tt.

(** [CSVRecordReader._read_one_row] *)
Definition _read_one_row : reading row :=
  fun rows => match rows with
              | [] => Err CSVEndOfRowsException
              | r :: rest => OK (r, rest)
              end.

(** [CSVRecordReader._verify_key_row] *)
Definition _verify_key_row (key_row : row) : result unit :=
  if (length key_row =? 2)%nat then OK tt
  else Err (CSVFormatException (InvalidKeyRow key_row)).

(** [CSVRecordReader._read_key_row] *)
Definition _read_key_row : reading row :=
  r <~ _read_one_row ;;
  _ <~ lift (_verify_key_row r) ;;
  ret r.

(** [CSVRecordReader._get_row_value] *)
Definition _get_row_value (_val_col : Z) (value_row : row) : result string :=
  if ((Z.of_nat (length value_row) <? Z.max 2 (_val_col + 1))%Z
      || negb (match value_row with
               | c :: _ => String.eqb c VALUE_ROW_TYPE
               | [] => false
               end))%bool
  then Err (CSVFormatException (InvalidValueRow value_row))
  else py_getitem value_row _val_col.

(** [CSVRecordReader._gen_values], run to its end by [extend]: it takes rows
    until [number_of_rows] of them gave a value or no row is left. *)
Fixpoint _gen_values (_val_col : Z) (number_of_rows : nat)
  : reading (list string) :=
  fun rows =>
    match number_of_rows with
    | O => OK ([], rows)
    | S n =>
        match rows with
        | [] => OK ([], [])
        | r :: rest =>
            v <- _get_row_value _val_col r ;;
            '(vs, rest') <- _gen_values _val_col n rest ;;
            OK (v :: vs, rest')
        end
    end.

(** [CSVRecordReader._verify_values_number] *)
Definition _verify_values_number (vs : list string) (number : Z)
  : result unit :=
  if (Z.of_nat (length vs) =? number)%Z then OK tt
  else Err (CSVFormatException (ExpectedRows number (length vs) vs)).

(** [CSVRecordReader._read_value_rows] *)
Definition _read_value_rows (_val_col : Z) (number : Z)
  : reading (list string) :=
  if (number >? 0)%Z
  then read_values <~ _gen_values _val_col (Z.to_nat number) ;;
       _ <~ lift (_verify_values_number read_values number) ;;
       ret read_values
  else ret [].

(** [CSVRecordReader.read_one_record] *)
Definition read_one_record (_val_col : Z) : reading CSVRecord :=
  r <~ _read_key_row ;;
  let typesig := nth 0 r "" in
  let key := nth 1 r "" in
  rows_to_read <~ lift (get_number_of_values_for_type typesig) ;;
  vs <~ _read_value_rows _val_col rows_to_read ;;
  let rec := mkCSVRecord typesig key (map JStr vs) in
  _ <~ lift (verify rec) ;;
  ret rec.

(** The loop of [read_all_records].  Every record read takes its key row
    off the iterator, so as many turns as there are rows left always reach
    the end of the rows. *)
Fixpoint read_all_loop (_val_col : Z) (turns : nat) (rows : list row)
  : result (list CSVRecord) :=
  match read_one_record _val_col rows with
  | Err CSVEndOfRowsException => OK []
  | Err e => Err e
  | OK (rec, rest) =>
      match turns with
      | O => OK [rec]
      | S turns' =>
          records <- read_all_loop _val_col turns' rest ;;
          OK (rec :: records)
      end
  end.

(** [CSVRecordReader.read_all_records] *)
Definition read_all_records (_val_col : Z) (rows : list row)
  : result (list CSVRecord) :=
  read_all_loop _val_col (length rows) rows.

(** [skip_iter_items]: [next(iterator, None)] takes a row off when there is
    one and does nothing at the end of the rows. *)
Fixpoint skip_rows (times : nat) (iterator : list row) : list row :=
  match times with
  | O => iterator
  | S n => skip_rows n (match iterator with [] => [] | _ :: rest => rest end)
  end.

Definition skip_iter_items (iterator : list row) (number_of_skipped : Z)
  : list row :=
  skip_rows (Z.to_nat number_of_skipped) iterator.

(** [read_records_from_csv] *)
Definition read_records_from_csv (csv_reader : list row)
  (values_column skipped_rows : Z) : result (list PureRecord) :=
  let row_iter := skip_iter_items csv_reader skipped_rows in
  _ <- __verify_values_column values_column ;;
  records <- read_all_records values_column row_iter ;;
  map_result to_pure_record records.

(** ** The JSON flattener *)

(** The loop of [collect_records_from_json] over the items of a dict, given
    as the members of [json_value]; a value that is not a dict has none. *)
Fixpoint collect_records (json_value : json)
  (parent_name_parts : RecordNameParts) : list PureRecord :=
  match json_value with
  | JObj members =>
      (fix items (ms : list (string * json)) : list PureRecord :=
         match ms with
         | [] => []
         | (key, value) :: rest =>
             let name_parts := add_part parent_name_parts key in
             (if is_Sequence value then [mkPureRecord name_parts value]
              else if is_Mapping value then collect_records value name_parts
              else [])
             ++ items rest
         end) members
  | _ => []
  end.

(** [collect_records_from_json] *)
Definition collect_records_from_json (json_dict : list (string * json))
  (parent_name_parts : RecordNameParts) : list PureRecord :=
  collect_records (JObj json_dict) parent_name_parts.

(** ** The tabular writer *)

(** [write_records_to_csv]: the rows in the writer when the loop ends, and
    how it ended. *)
Fixpoint write_records_to_csv (csv_writer : list out_row)
  (records : list PureRecord) : list out_row * result unit :=
  match records with
  | [] => (csv_writer, OK tt)
  | record :: rest =>
      match from_pure_record record with
      | OK csv_rec => write_records_to_csv (write_to_csv csv_rec csv_writer) rest
      | Err e => (csv_writer, Err e)
      end
  end.

(** ** The JSON builder: [OutputJSONDict] *)

(** [key in d] and [d[key]] for a key that is there. *)
Fixpoint dict_get (d : list (string * json)) (k : string) : option json :=
  match d with
  | [] => None
  | (k', v) :: rest => if String.eqb k' k then Some v else dict_get rest k
  end.

(** [d[key] = v]: a key that is there keeps its place, a new key goes
    last. *)
Fixpoint dict_set (d : list (string * json)) (k : string) (v : json)
  : list (string * json) :=
  match d with
  | [] => [(k, v)]
  | (k', v') :: rest =>
      if String.eqb k' k then (k', v) :: rest
      else (k', v') :: dict_set rest k v
  end.

(** [__get_nested_dict(key_seq)] followed by the assignment of [v] at [last]
    in the dict it returns, on the tree of dicts owned by [self].  A missing
    key is given an empty dict by [__missing__]; a string or a list met on
    the way, or any other value that is no dict, cannot be indexed by a key.
    The values stored are those of records read from rows, strings and
    lists, so that a dict in the tree is one the builder made. *)
Fixpoint include_at (self : list (string * json)) (key_seq : list string)
  (last : string) (v : json) : result (list (string * json)) :=
  match key_seq with
  | [] => OK (dict_set self last v)
  | k :: ks =>
      match dict_get self k with
      | None =>
          newd <- include_at [] ks last v ;;
          OK (dict_set self k (JObj newd))
      | Some (JObj target) =>
          target' <- include_at target ks last v ;;
          OK (dict_set self k (JObj target'))
      | Some _ => Err TypeError
      end
  end.

(** [OutputJSONDict.include_record].  With an empty name the walk over
    [name_parts[:-1]] does nothing and [name_parts[-1]] raises. *)
Definition include_record (self : list (string * json)) (record : PureRecord)
  : result (list (string * json)) :=
  last <- py_getitem (name_parts record) (-1) ;;
  include_at self (removelast (name_parts record)) last (value record).

(** [write_records_to_json]: the dict handed to [json.dump]. *)
Fixpoint include_records (out_dict : list (string * json))
  (records : list PureRecord) : result (list (string * json)) :=
  match records with
  | [] => OK out_dict
  | record :: rest =>
      out_dict' <- include_record out_dict record ;;
      include_records out_dict' rest
  end.

Definition write_records_to_json (records : list PureRecord)
  : result (list (string * json)) :=
  include_records [] records.

(** ** From one format to the other and back *)

(** The cells of a written row as the reader gets them back.  A string cell
    comes back as it is; what the [csv] module makes of any other cell is
    outside the model. *)
Definition cell_text (cell : json) : option string :=
  match cell with JStr s => Some s | _ => None end.

Fixpoint map_option {A B : Type} (f : A -> option B) (l : list A)
  : option (list B) :=
  match l with
  | [] => Some []
  | a :: rest =>
      match f a, map_option f rest with
      | Some b, Some bs => Some (b :: bs)
      | _, _ => None
      end
  end.

Definition rows_text (rows : list out_row) : option (list row) :=
  map_option (map_option cell_text) rows.

(** [convert_json_to_csv] on a loaded object, the rows written. *)
Definition json_to_rows (json_dict : list (string * json))
  : list out_row * result unit :=
  write_records_to_csv [] (collect_records_from_json json_dict []).

(** [convert_csv_to_json] on the rows read, the dict written. *)
Definition rows_to_json (rows : list row) (select_column skip_rows : Z)
  : result (list (string * json)) :=
  records <- read_records_from_csv rows select_column skip_rows ;;
  write_records_to_json records.

(** JSON to rows and back, selecting column 1 and skipping no row.  [None]
    when a written cell is not a string. *)
Definition json_round_trip (json_dict : list (string * json))
  : option (result (list (string * json))) :=
  match json_to_rows json_dict with
  | (_, Err e) => Some (Err e)
  | (rows, OK _) =>
      match rows_text rows with
      | Some rows' => Some (rows_to_json rows' 1 0)
      | None => None
      end
  end.

(** ** Predicates on name parts and documents *)

(** A name that [split] takes apart where [join] put it together: it has a
    part, no part holds the separator, and no part but the last ends with a
    colon. *)
Fixpoint separable (parts : RecordNameParts) : bool :=
  match parts with
  | [] => false
  | [p] => negb (contains_sep p)
  | p :: rest =>
      negb (contains_sep p) && negb (ends_with_colon p) && separable rest
  end.

(** Every leaf reached through objects is a string or an array of strings. *)
Fixpoint string_leaves (value : json) : bool :=
  match value with
  | JStr _ => true
  | JArr items => forallb is_str items
  | JObj members =>
      (fix all (ms : list (string * json)) : bool :=
         match ms with
         | [] => true
         | (_, v) :: rest => string_leaves v && all rest
         end) members
  | _ => false
  end.

(** No key of an object, at any depth, holds the separator. *)
Fixpoint keys_without_sep (value : json) : bool :=
  match value with
  | JObj members =>
      (fix all (ms : list (string * json)) : bool :=
         match ms with
         | [] => true
         | (k, v) :: rest =>
             negb (contains_sep k) && keys_without_sep v && all rest
         end) members
  | _ => true
  end.

Definition has_key (k : string) (ms : list (string * json)) : bool :=
  existsb (fun kv => String.eqb (fst kv) k) ms.

(** What a dict is: no key twice in an object, at any depth. *)
Fixpoint unique_keys (value : json) : bool :=
  match value with
  | JObj members =>
      (fix all (ms : list (string * json)) : bool :=
         match ms with
         | [] => true
         | (k, v) :: rest => negb (has_key k rest) && unique_keys v && all rest
         end) members
  | _ => true
  end.

(** Every object inside another has a member, and its key does not end with
    a colon. *)
Fixpoint nested_objects_kept (value : json) : bool :=
  match value with
  | JObj members =>
      (fix all (ms : list (string * json)) : bool :=
         match ms with
         | [] => true
         | (k, v) :: rest =>
             match v with
             | JObj [] => false
             | JObj _ => negb (ends_with_colon k)
             | _ => true
             end && nested_objects_kept v && all rest
         end) members
  | _ => true
  end.

(** The strings and arrays reached through objects only. *)
Fixpoint count_leaves (value : json) : nat :=
  match value with
  | JStr _ | JArr _ => 1
  | JObj members =>
      (fix sum (ms : list (string * json)) : nat :=
         match ms with
         | [] => 0
         | (_, v) :: rest => count_leaves v + sum rest
         end) members
  | _ => 0
  end.

(** The rows a record read back from is written as, when its values are
    strings. *)
Definition record_rows (typesig key : string) (vs : list string) : list row :=
  [typesig; key] :: map (fun v => [VALUE_ROW_TYPE; v]) vs.

(** A record under one more leading name part. *)
Definition under (k : string) (record : PureRecord) : PureRecord :=
  mkPureRecord (k :: name_parts record) (value record).

(** The string a cell stands for. *)
Definition text_of (cell : json) : string :=
  match cell with JStr s => s | _ => "" end.

(** The rows a record of a string or of strings is written as. *)
Definition record_text_rows (record : PureRecord) : list row :=
  match value record with
  | JStr s => record_rows TYPE_SCALAR (to_str (name_parts record)) [s]
  | JArr items =>
      record_rows (str_of_nat (length items)) (to_str (name_parts record))
        (map text_of items)
  | _ => []
  end.

(** ** The option types of the command line *)

(** [column_opt_type] *)
Definition column_opt_type (text : string) : result Z :=
  match py_int text with
  | None => Err ValueError
  | Some intval => if (intval <? 1)%Z then Err ValueError else OK intval
  end.

(** [skip_opt_type] *)
Definition skip_opt_type (text : string) : result Z :=
  match py_int text with
  | None => Err ValueError
  | Some intval => if (intval <? 0)%Z then Err ValueError else OK intval
  end.

(** What is found in a tree of dicts under the keys of [key_seq] followed by
    [last]. *)
Fixpoint get_at (d : list (string * json)) (key_seq : list string)
  (last : string) : option json :=
  match key_seq with
  | [] => dict_get d last
  | k :: ks =>
      match dict_get d k with
      | Some (JObj target) => get_at target ks last
      | _ => None
      end
  end.

(** The first character of a first part [h] of [split] on a string that
    starts with [c]: [h] starts with [c], or is empty before a
    separator. *)
Definition first_part_of (c : ascii) (h : string) : Prop :=
  match h with
  | "" => c = colon
  | String d _ => d = c
  end.

(** A string of decimal digits, and the number it spells after [acc]. *)
Fixpoint all_digits (s : string) : bool :=
  match s with
  | "" => true
  | String c rest =>
      match digit_value c with Some _ => all_digits rest | None => false end
  end.

Fixpoint digits_value (acc : Z) (s : string) : Z :=
  match s with
  | "" => acc
  | String c rest =>
      match digit_value c with
      | Some d => digits_value (acc * 10 + d) rest
      | None => acc
      end
  end.

(** ** Induction on documents *)

Section json_induction.
Variable P : json -> Prop.
Hypothesis HNull : P JNull.
Hypothesis HBool : forall b, P (JBool b).
Hypothesis HInt : forall z, P (JInt z).
Hypothesis HFloat : forall l, P (JFloat l).
Hypothesis HStr : forall s, P (JStr s).
Hypothesis HArr : forall items, Forall P items -> P (JArr items).
Hypothesis HObj :
  forall members, Forall (fun kv => P (snd kv)) members -> P (JObj members).

Fixpoint json_induction (j : json) : P j :=
  match j with
  | JNull => HNull
  | JBool b => HBool b
  | JInt z => HInt z
  | JFloat l => HFloat l
  | JStr s => HStr s
  | JArr items =>
      HArr items
        ((fix all (l : list json) : Forall P l :=
            match l with
            | [] => Forall_nil P
            | x :: r => Forall_cons x (json_induction x) (all r)
            end) items)
  | JObj members =>
      HObj members
        ((fix all (l : list (string * json))
            : Forall (fun kv => P (snd kv)) l :=
            match l with
            | [] => Forall_nil _
            | kv :: r =>
                Forall_cons kv (json_induction (snd kv)) (all r)
            end) members)
  end.
End json_induction.

(** ** [split] and [join] *)

Lemma split_nonempty (s : string) : split s <> [].
Proof.
  induction s as [|c rest IH]; simpl; [discriminate|].
  destruct rest as [|c' rest']; [discriminate|].
  destruct (Ascii.eqb c colon && Ascii.eqb c' colon); [discriminate|].
  destruct (split (String c' rest')); [contradiction|discriminate].
Qed.

Lemma split_without_sep (s : string) :
  contains_sep s = false -> split s = [s].
Proof.
  induction s as [|c rest IH]; [reflexivity|].
  destruct rest as [|c' rest']; [reflexivity|].
  intros H. change (contains_sep (String c (String c' rest')))
    with ((Ascii.eqb c colon && Ascii.eqb c' colon)
          || contains_sep (String c' rest')) in H.
  apply orb_false_iff in H. destruct H as [Hcc Hrest].
  change (split (String c (String c' rest')))
    with (if (Ascii.eqb c colon && Ascii.eqb c' colon)%bool
          then "" :: split rest'
          else cons_head c (split (String c' rest'))).
  rewrite Hcc, (IH Hrest). reflexivity.
Qed.

Lemma split_part_sep (s t : string) :
  contains_sep s = false -> ends_with_colon s = false ->
  split (s ++ SEP ++ t) = s :: split t.
Proof.
  induction s as [|c rest IH]; intros Hsep Hend; [reflexivity|].
  destruct rest as [|c' rest'].
  - simpl in Hend. simpl. rewrite Hend. reflexivity.
  - change (contains_sep (String c (String c' rest')))
      with ((Ascii.eqb c colon && Ascii.eqb c' colon)
            || contains_sep (String c' rest')) in Hsep.
    apply orb_false_iff in Hsep. destruct Hsep as [Hcc Hrest].
    change (ends_with_colon (String c (String c' rest')))
      with (ends_with_colon (String c' rest')) in Hend.
    change (split (String c (String c' rest') ++ SEP ++ t))
      with (if (Ascii.eqb c colon && Ascii.eqb c' colon)%bool
            then "" :: split (rest' ++ SEP ++ t)
            else cons_head c (split (String c' rest' ++ SEP ++ t))).
    rewrite Hcc, (IH Hrest Hend). reflexivity.
Qed.

Lemma split_join (parts : RecordNameParts) :
  separable parts = true -> split (join parts) = parts.
Proof.
  induction parts as [|p rest IH]; [discriminate|].
  destruct rest as [|q rest'].
  - simpl. intros H. apply negb_true_iff in H. now apply split_without_sep.
  - intros H.
    change (separable (p :: q :: rest'))
      with (negb (contains_sep p) && negb (ends_with_colon p)
            && separable (q :: rest')) in H.
    apply andb_true_iff in H. destruct H as [H Hrest].
    apply andb_true_iff in H. destruct H as [Hsep Hend].
    apply negb_true_iff in Hsep, Hend.
    change (join (p :: q :: rest')) with (p ++ SEP ++ join (q :: rest'))%string.
    rewrite split_part_sep by assumption. now rewrite IH.
Qed.

(** ** [str] and [int] *)

Lemma digit_char_value (d : nat) :
  (d < 10)%nat -> digit_value (digit_char d) = Some (Z.of_nat d).
Proof.
  intros H.
  do 10 (destruct d as [|d]; [reflexivity|]). lia.
Qed.

Lemma digit_is_plain (c : ascii) (d : Z) :
  digit_value c = Some d ->
  is_space c = false /\ Ascii.eqb c minus_sign = false
  /\ Ascii.eqb c plus_sign = false.
Proof.
  destruct c as [[] [] [] [] [] [] [] []]; vm_compute; intros H;
    try discriminate H; repeat split.
Qed.

Lemma string_app_assoc (s t u : string) :
  ((s ++ t) ++ u = s ++ (t ++ u))%string.
Proof. induction s as [|c s IH]; simpl; [reflexivity|now rewrite IH]. Qed.

Lemma digits_of_step (fuel n : nat) (acc : string) :
  digits_of (S fuel) n acc
  = if (n <? 10)%nat then String (digit_char (n mod 10)) acc
    else digits_of fuel (n / 10) (String (digit_char (n mod 10)) acc).
Proof. reflexivity. Qed.

Lemma digits_of_app (fuel n : nat) (acc : string) :
  digits_of fuel n acc = (digits_of fuel n "" ++ acc)%string.
Proof.
  revert n acc. induction fuel as [|fuel IH]; intros n acc; [reflexivity|].
  rewrite !digits_of_step. destruct (n <? 10)%nat; [reflexivity|].
  rewrite (IH _ (String _ acc)), (IH _ (String _ "")).
  rewrite string_app_assoc. reflexivity.
Qed.

Lemma all_digits_app (s t : string) :
  all_digits (s ++ t) = all_digits s && all_digits t.
Proof.
  induction s as [|c s IH]; [reflexivity|].
  simpl. destruct (digit_value c); [exact IH|reflexivity].
Qed.

Lemma digits_value_app (s t : string) (acc : Z) :
  all_digits s = true ->
  digits_value acc (s ++ t) = digits_value (digits_value acc s) t.
Proof.
  revert acc. induction s as [|c s IH]; intros acc H; [reflexivity|].
  simpl in *. destruct (digit_value c); [now apply IH|discriminate].
Qed.

Lemma parse_all_digits (s : string) (acc : Z) (prev : bool) :
  all_digits s = true -> prev = true \/ s <> "" ->
  parse_digits acc prev s = Some (digits_value acc s).
Proof.
  revert acc prev. induction s as [|c s IH]; intros acc prev Hd Hne.
  - destruct Hne as [->|Hne]; [reflexivity|contradiction].
  - simpl in *. destruct (digit_value c); [|discriminate].
    apply IH; [assumption|now left].
Qed.

Lemma digits_of_spec (fuel n : nat) :
  (n < fuel)%nat ->
  all_digits (digits_of fuel n "") = true
  /\ digits_value 0 (digits_of fuel n "") = Z.of_nat n
  /\ digits_of fuel n "" <> "".
Proof.
  revert n. induction fuel as [|fuel IH]; intros n Hlt; [lia|].
  assert (Hmod : (n mod 10 < 10)%nat) by (apply Nat.mod_upper_bound; lia).
  pose proof (digit_char_value _ Hmod) as Hdv.
  rewrite digits_of_step. destruct (Nat.ltb_spec n 10) as [Hsmall|Hbig].
  - cbn [all_digits digits_value]. rewrite Hdv.
    rewrite Nat.mod_small by assumption.
    repeat split; try lia; discriminate.
  - assert (Hdiv : (n / 10 < fuel)%nat).
    { assert (n / 10 < n)%nat by (apply Nat.div_lt; lia). lia. }
    destruct (IH _ Hdiv) as (Hall & Hval & Hne).
    rewrite digits_of_app. repeat split.
    + rewrite all_digits_app, Hall. cbn [all_digits andb]. now rewrite Hdv.
    + rewrite digits_value_app by assumption. rewrite Hval.
      cbn [digits_value]. rewrite Hdv.
      rewrite (Nat.div_mod_eq n 10) at 3. lia.
    + destruct (digits_of fuel (n / 10) ""); [contradiction|discriminate].
Qed.

Lemma str_of_nat_digits (n : nat) :
  all_digits (str_of_nat n) = true
  /\ digits_value 0 (str_of_nat n) = Z.of_nat n
  /\ str_of_nat n <> "".
Proof. apply digits_of_spec. lia. Qed.

Lemma lstrip_digits (s : string) : all_digits s = true -> lstrip s = s.
Proof.
  destruct s as [|c s]; [reflexivity|]. simpl.
  destruct (digit_value c) as [d|] eqn:Hc; [|discriminate].
  destruct (digit_is_plain _ _ Hc) as (-> & _). reflexivity.
Qed.

Lemma rstrip_digits (s : string) : all_digits s = true -> rstrip s = s.
Proof.
  induction s as [|c s IH]; [reflexivity|]. simpl.
  destruct (digit_value c) as [d|] eqn:Hc; [|discriminate].
  intros H. rewrite (IH H).
  destruct (digit_is_plain _ _ Hc) as (-> & _).
  destruct s; reflexivity.
Qed.

Lemma py_int_digits (s : string) :
  all_digits s = true -> s <> "" -> py_int s = Some (digits_value 0 s).
Proof.
  intros Hd Hne. unfold py_int.
  rewrite (lstrip_digits _ Hd), (rstrip_digits _ Hd).
  destruct s as [|c s]; [contradiction|].
  pose proof Hd as Hd'. simpl in Hd'.
  destruct (digit_value c) as [d|] eqn:Hc; [|discriminate].
  destruct (digit_is_plain _ _ Hc) as (_ & -> & ->).
  apply parse_all_digits; [assumption|right; discriminate].
Qed.

Lemma py_int_str_of_nat (n : nat) : py_int (str_of_nat n) = Some (Z.of_nat n).
Proof.
  destruct (str_of_nat_digits n) as (Hd & Hv & Hne).
  rewrite py_int_digits by assumption. now rewrite Hv.
Qed.

Lemma str_of_nat_not_scalar (n : nat) :
  String.eqb (str_of_nat n) TYPE_SCALAR = false.
Proof.
  destruct (str_of_nat_digits n) as (Hd & _ & Hne).
  destruct (str_of_nat n) as [|c s]; [contradiction|].
  simpl in Hd. destruct (digit_value c) as [d|] eqn:Hc; [|discriminate].
  destruct (digit_is_plain _ _ Hc) as (_ & Hm & _).
  unfold TYPE_SCALAR. simpl. fold minus_sign. now rewrite Hm.
Qed.

(** ** Python indexing *)

Lemma py_getitem_last {A : Type} (l : list A) (x : A) :
  py_getitem (l ++ [x]) (-1) = OK x.
Proof.
  unfold py_getitem. rewrite length_app. cbn [length].
  change (-1 <? 0)%Z with true. cbv iota.
  replace (Z.of_nat (length l + 1) + -1)%Z with (Z.of_nat (length l)) by lia.
  replace ((0 <=? Z.of_nat (length l))
           && (Z.of_nat (length l) <? Z.of_nat (length l + 1)))%Z
    with true
    by (symmetry; apply andb_true_iff; split;
        [apply Z.leb_le|apply Z.ltb_lt]; lia).
  rewrite Nat2Z.id, nth_error_app2 by lia.
  now rewrite Nat.sub_diag.
Qed.

Lemma py_getitem_nonempty {A : Type} (l : list A) :
  l <> [] -> exists x, py_getitem l (-1) = OK x.
Proof.
  intros H. destruct (exists_last H) as (l' & x & ->).
  exists x. apply py_getitem_last.
Qed.

(** ** The reader *)

Lemma read_one_record_nil (col : Z) :
  read_one_record col [] = Err CSVEndOfRowsException.
Proof. reflexivity. Qed.

Lemma _read_value_rows_eq (col number : Z) (rows : list row) :
  _read_value_rows col number rows
  = if (number >? 0)%Z
    then '(vs, rest) <- _gen_values col (Z.to_nat number) rows ;;
         _ <- _verify_values_number vs number ;;
         OK (vs, rest)
    else OK ([], rows).
Proof.
  unfold _read_value_rows, bind_reading, lift, ret, bind.
  destruct (number >? 0)%Z; [|reflexivity].
  destruct (_gen_values col (Z.to_nat number) rows) as [[vs rest]|e];
    [|reflexivity].
  destruct (_verify_values_number vs number); reflexivity.
Qed.

Lemma read_one_record_cons (col : Z) (r : row) (rows : list row) :
  read_one_record col (r :: rows)
  = _ <- _verify_key_row r ;;
    number <- get_number_of_values_for_type (nth 0 r "") ;;
    '(vs, rest) <- _read_value_rows col number rows ;;
    _ <- verify (mkCSVRecord (nth 0 r "") (nth 1 r "") (map JStr vs)) ;;
    OK (mkCSVRecord (nth 0 r "") (nth 1 r "") (map JStr vs), rest).
Proof.
  unfold read_one_record, _read_key_row, _read_one_row, bind_reading, lift,
    ret, bind.
  destruct (_verify_key_row r); [|reflexivity].
  destruct (get_number_of_values_for_type (nth 0 r "")); [|reflexivity].
  destruct (_read_value_rows col a0 rows) as [[vs rest]|e]; [|reflexivity].
  destruct (verify _); reflexivity.
Qed.

Lemma _get_row_value_err (col : Z) (r : row) (e : exn) :
  _get_row_value col r = Err e ->
  e = CSVFormatException (InvalidValueRow r) \/ e = IndexError.
Proof.
  unfold _get_row_value, py_getitem.
  repeat match goal with
         | |- context [if ?b then _ else _] => destruct b
         | |- context [match nth_error ?l ?n with _ => _ end] =>
             destruct (nth_error l n)
         end; intros H; inversion H; auto.
Qed.

Lemma _gen_values_err (col : Z) (n : nat) (rows : list row) (e : exn) :
  _gen_values col n rows = Err e -> e <> CSVEndOfRowsException.
Proof.
  revert rows. induction n as [|n IH]; intros rows; [discriminate|].
  destruct rows as [|r rows]; [discriminate|]. cbn [_gen_values]. unfold bind.
  destruct (_get_row_value col r) eqn:Hr.
  - destruct (_gen_values col n rows) as [[vs rest]|e'] eqn:Hg;
      [discriminate|].
    intros H. inversion H; subst. now apply (IH rows).
  - intros H. inversion H; subst.
    destruct (_get_row_value_err _ _ _ Hr) as [->| ->]; discriminate.
Qed.

Lemma _gen_values_rest (col : Z) (n : nat) (rows rest : list row)
  (vs : list string) :
  _gen_values col n rows = OK (vs, rest) -> length rest <= length rows.
Proof.
  revert rows vs. induction n as [|n IH]; intros rows vs.
  - intros H. inversion H. lia.
  - destruct rows as [|r rows]; [intros H; inversion H; cbn; lia|].
    cbn [_gen_values]. unfold bind.
    destruct (_get_row_value col r); [|discriminate].
    destruct (_gen_values col n rows) as [[vs' rest']|e'] eqn:Hg;
      [|discriminate].
    intros H. inversion H; subst. apply IH in Hg. cbn. lia.
Qed.

Lemma verify_err (c : CSVRecord) (e : exn) :
  verify c = Err e -> exists v, e = CSVRecordVerificationFailure v.
Proof.
  unfold verify, __verify_scalar, __verify_array, __verify_length_sign, bind.
  repeat match goal with
         | |- context [if ?b then _ else _] => destruct b
         | |- context [match py_int ?t with _ => _ end] => destruct (py_int t)
         end; intros H; inversion H; eauto.
Qed.

(** What [read_one_record] does with a first row: the rows left are fewer,
    and no exception it raises is the end of the rows. *)
Lemma read_one_record_cons_cases (col : Z) (r : row) (rows : list row) :
  match read_one_record col (r :: rows) with
  | OK (_, rest) => length rest <= length rows
  | Err e => e <> CSVEndOfRowsException
  end.
Proof.
  rewrite read_one_record_cons. unfold bind at 1.
  unfold _verify_key_row.
  destruct (length r =? 2)%nat; [|discriminate].
  unfold bind at 1.
  destruct (get_number_of_values_for_type (nth 0 r "")) as [number|e] eqn:Hn.
  2:{ unfold get_number_of_values_for_type in Hn.
      destruct (String.eqb (nth 0 r "") TYPE_SCALAR); [discriminate|].
      destruct (py_int (nth 0 r "")); inversion Hn. discriminate. }
  rewrite _read_value_rows_eq. unfold bind.
  destruct (number >? 0)%Z.
  - destruct (_gen_values col (Z.to_nat number) rows) as [[vs rest]|e] eqn:Hg.
    + unfold _verify_values_number.
      destruct (Z.of_nat (length vs) =? number)%Z; [|discriminate].
      destruct (verify _) eqn:Hv.
      * now apply _gen_values_rest in Hg.
      * destruct (verify_err _ _ Hv) as [v ->]. discriminate.
    + now apply _gen_values_err in Hg.
  - destruct (verify _) eqn:Hv; [lia|].
    destruct (verify_err _ _ Hv) as [v ->]. discriminate.
Qed.

Lemma read_one_record_end (col : Z) (rows : list row) :
  read_one_record col rows = Err CSVEndOfRowsException <-> rows = [].
Proof.
  split; [|intros ->; reflexivity].
  destruct rows as [|r rows]; [reflexivity|].
  intros H. pose proof (read_one_record_cons_cases col r rows) as Hc.
  rewrite H in Hc. contradiction.
Qed.

Lemma read_one_record_shorter (col : Z) (rows rest : list row)
  (rec : CSVRecord) :
  read_one_record col rows = OK (rec, rest) -> length rest < length rows.
Proof.
  destruct rows as [|r rows]; [discriminate|].
  intros H. pose proof (read_one_record_cons_cases col r rows) as Hc.
  rewrite H in Hc. cbn. lia.
Qed.

Lemma read_all_loop_enough (col : Z) (turns turns' : nat) (rows : list row) :
  length rows <= turns -> length rows <= turns' ->
  read_all_loop col turns rows = read_all_loop col turns' rows.
Proof.
  revert turns' rows. induction turns as [|turns IH]; intros turns' rows H H'.
  - destruct rows; [|cbn in H; lia]. destruct turns'; reflexivity.
  - destruct turns' as [|turns'].
    + destruct rows; [reflexivity|cbn in H'; lia].
    + cbn [read_all_loop].
      destruct (read_one_record col rows) as [[rec rest]|e] eqn:Hr;
        [|reflexivity].
      apply read_one_record_shorter in Hr.
      rewrite (IH turns' rest) by lia. reflexivity.
Qed.

(** One turn of the loop of [read_all_records]. *)
Lemma read_all_records_eq (col : Z) (rows : list row) :
  read_all_records col rows
  = match read_one_record col rows with
    | Err CSVEndOfRowsException => OK []
    | Err e => Err e
    | OK (rec, rest) =>
        records <- read_all_records col rest ;; OK (rec :: records)
    end.
Proof.
  unfold read_all_records.
  destruct rows as [|r rows]; [reflexivity|].
  cbn [length read_all_loop].
  destruct (read_one_record col (r :: rows)) as [[rec rest]|e] eqn:Hr;
    [|reflexivity].
  apply read_one_record_shorter in Hr. cbn in Hr.
  rewrite (read_all_loop_enough col (length rows) (length rest)) by lia.
  reflexivity.
Qed.

Lemma map_result_length {A B : Type} (f : A -> result B) (l : list A)
  (l' : list B) :
  map_result f l = OK l' -> length l' = length l.
Proof.
  revert l'. induction l as [|a l IH]; intros l' H.
  - inversion H. reflexivity.
  - cbn [map_result] in H. unfold bind in H.
    destruct (f a); [|discriminate].
    destruct (map_result f l) as [bs|]; [|discriminate].
    inversion H. cbn. now rewrite (IH bs).
Qed.

Lemma map_result_In {A B : Type} (f : A -> result B) (l : list A)
  (l' : list B) (b : B) :
  map_result f l = OK l' -> In b l' -> exists a, In a l /\ f a = OK b.
Proof.
  revert l'. induction l as [|a l IH]; intros l' H Hin.
  - inversion H. subst. contradiction.
  - cbn [map_result] in H. unfold bind in H.
    destruct (f a) as [b0|] eqn:Hf; [|discriminate].
    destruct (map_result f l) as [bs|]; [|discriminate].
    inversion H. subst. destruct Hin as [->|Hin].
    + exists a. split; [now left|assumption].
    + destruct (IH bs eq_refl Hin) as (a' & Ha & Hfa).
      exists a'. split; [now right|assumption].
Qed.

(** When the rows run out before [n] values were taken, [_gen_values] gives
    the values of the rows there were. *)
Lemma _gen_values_all (col : Z) (n : nat) (rows : list row)
  (vs : list string) :
  map_result (_get_row_value col) rows = OK vs -> length rows <= n ->
  _gen_values col n rows = OK (vs, []).
Proof.
  revert n vs. induction rows as [|r rows IH]; intros n vs H Hn.
  - inversion H. destruct n; reflexivity.
  - destruct n as [|n]; [cbn in Hn; lia|].
    cbn [map_result] in H. cbn [_gen_values]. unfold bind in *.
    destruct (_get_row_value col r); [|discriminate].
    destruct (map_result (_get_row_value col) rows) as [vs'|] eqn:Hm;
      [|discriminate].
    inversion H. rewrite (IH n vs' eq_refl) by (cbn in Hn; lia).
    reflexivity.
Qed.

Lemma skip_rows_skipn (n : nat) (rows : list row) :
  skip_rows n rows = skipn n rows.
Proof.
  revert rows. induction n as [|n IH]; intros rows; [reflexivity|].
  cbn [skip_rows]. destruct rows as [|r rows]; [|apply IH].
  rewrite IH. now rewrite skipn_nil.
Qed.

(** ** The flattener *)

Lemma collect_nil (parent : RecordNameParts) :
  collect_records_from_json [] parent = [].
Proof. reflexivity. Qed.

Lemma collect_cons (key : string) (value : json)
  (rest : list (string * json)) (parent : RecordNameParts) :
  collect_records_from_json ((key, value) :: rest) parent
  = (if is_Sequence value
     then [mkPureRecord (add_part parent key) value]
     else match value with
          | JObj members =>
              collect_records_from_json members (add_part parent key)
          | _ => []
          end)
    ++ collect_records_from_json rest parent.
Proof. destruct value; reflexivity. Qed.

Lemma collect_app (before after : list (string * json))
  (parent : RecordNameParts) :
  collect_records_from_json (before ++ after) parent
  = collect_records_from_json before parent
    ++ collect_records_from_json after parent.
Proof.
  induction before as [|[k v] before IH]; [reflexivity|].
  cbn [app]. rewrite !collect_cons, IH. now rewrite app_assoc.
Qed.

Lemma collect_count (value : json) :
  forall members, value = JObj members ->
  forall parent,
    length (collect_records_from_json members parent) = count_leaves value.
Proof.
  induction value as [| | | | | |ms IH] using json_induction;
    intros members Heq; try discriminate.
  inversion Heq; subst members. clear Heq.
  induction ms as [|[k v] ms IHms]; intros parent; [reflexivity|].
  rewrite collect_cons, length_app.
  inversion IH as [|kv l Hv Hms]; subst.
  rewrite (IHms Hms parent).
  change (count_leaves (JObj ((k, v) :: ms)))
    with (count_leaves v + count_leaves (JObj ms)).
  f_equal. cbn [snd] in Hv.
  destruct v; try reflexivity.
  cbn [is_Sequence]. now apply Hv.
Qed.

(** ** The flattener: which values give a record *)

(** C2.  The flattener gives one record for each string and each array it
    reaches through objects, and goes into objects only: the records are as
    many as those leaves, a string or an array member gives the record of
    its name and value, an object member gives the records of its own
    members under its name.  The object
    [{"Cards": {"Strike": {"NAME": "Strike"}}}] gives the one record of
    name [Cards], [Strike], [NAME], written [Cards::Strike::NAME], and of
    value the string [Strike]. *)
Theorem flattener_one_record_per_leaf :
  (forall json_dict parent,
      length (collect_records_from_json json_dict parent)
      = count_leaves (JObj json_dict))
  /\ (forall key s rest parent,
         collect_records_from_json ((key, JStr s) :: rest) parent
         = mkPureRecord (parent ++ [key]) (JStr s)
           :: collect_records_from_json rest parent)
  /\ (forall key items rest parent,
         collect_records_from_json ((key, JArr items) :: rest) parent
         = mkPureRecord (parent ++ [key]) (JArr items)
           :: collect_records_from_json rest parent)
  /\ (forall key members rest parent,
         collect_records_from_json ((key, JObj members) :: rest) parent
         = collect_records_from_json members (parent ++ [key])
           ++ collect_records_from_json rest parent)
  /\ collect_records_from_json
       [("Cards", JObj [("Strike", JObj [("NAME", JStr "Strike")])])] []
     = [mkPureRecord ["Cards"; "Strike"; "NAME"] (JStr "Strike")]
  /\ to_str ["Cards"; "Strike"; "NAME"] = "Cards::Strike::NAME".
Proof.
  repeat split; try reflexivity.
  intros json_dict parent. now apply collect_count.
Qed.

(** C9.  A member whose value is neither a sequence nor a mapping, such as
    a number, a boolean or null, gives no record: the records of the object
    are those of the object without that member. *)
Theorem flattener_skips_other_values
  (before after : list (string * json)) (key : string) (value : json)
  (parent : RecordNameParts) :
  is_Sequence value = false -> is_Mapping value = false ->
  collect_records_from_json (before ++ (key, value) :: after) parent
  = collect_records_from_json (before ++ after) parent.
Proof.
  intros Hs Hm. rewrite !collect_app, collect_cons, Hs.
  destruct value; try discriminate; reflexivity.
Qed.

Lemma flattener_skips_other_values_witness :
  collect_records_from_json
    ([("a", JStr "x")] ++ ("n", JInt 3) :: [("b", JNull); ("c", JStr "y")]) []
  = collect_records_from_json
      ([("a", JStr "x")] ++ [("b", JNull); ("c", JStr "y")]) [].
Proof.
  apply (flattener_skips_other_values [("a", JStr "x")]
           [("b", JNull); ("c", JStr "y")] "n" (JInt 3) []); reflexivity.
Defined.

(** ** Scalars, arrays of one value and empty arrays *)

(** C4.  A record of a string [X] is written with the scalar marker and the
    one value [X], on a key row and one value row, and read back as the
    string [X], which is not the list of [X]; a record of the list of [X]
    is written with the marker [1] and read back as the list of [X]. *)
Theorem scalar_and_singleton_kept_apart (parts : RecordNameParts)
  (X : string) (rest : list row) :
  from_pure_record (mkPureRecord parts (JStr X))
  = OK (mkCSVRecord "-" (to_str parts) [JStr X])
  /\ to_pure_record (mkCSVRecord "-" (to_str parts) [JStr X])
     = OK (mkPureRecord (from_str (to_str parts)) (JStr X))
  /\ from_pure_record (mkPureRecord parts (JArr [JStr X]))
     = OK (mkCSVRecord "1" (to_str parts) [JStr X])
  /\ to_pure_record (mkCSVRecord "1" (to_str parts) [JStr X])
     = OK (mkPureRecord (from_str (to_str parts)) (JArr [JStr X]))
  /\ JStr X <> JArr [JStr X]
  /\ read_one_record 1 (record_rows "-" (to_str parts) [X] ++ rest)
     = OK (mkCSVRecord "-" (to_str parts) [JStr X], rest)
  /\ read_one_record 1 (record_rows "1" (to_str parts) [X] ++ rest)
     = OK (mkCSVRecord "1" (to_str parts) [JStr X], rest).
Proof.
  repeat split; try reflexivity. discriminate.
Qed.

(** C6.  A record of the empty list is written as the one key row of marker
    [0], with no value row; a key row of marker [0] is read, without an
    error, as a record of the empty list. *)
Theorem empty_array_record (parts : RecordNameParts) (key : string)
  (col : Z) (rest : list row) (csv_writer : list out_row) :
  (1 <= col)%Z ->
  from_pure_record (mkPureRecord parts (JArr []))
  = OK (mkCSVRecord "0" (to_str parts) [])
  /\ write_to_csv (mkCSVRecord "0" (to_str parts) []) csv_writer
     = csv_writer ++ [[JStr "0"; JStr (to_str parts)]]
  /\ read_one_record col (["0"; key] :: rest)
     = OK (mkCSVRecord "0" key [], rest)
  /\ to_pure_record (mkCSVRecord "0" key [])
     = OK (mkPureRecord (from_str key) (JArr []))
  /\ read_records_from_csv [["0"; key]] col 0
     = OK [mkPureRecord (from_str key) (JArr [])].
Proof.
  intros Hcol. repeat split; try reflexivity.
  - unfold write_to_csv. cbn [values map]. now rewrite app_nil_r.
  - unfold read_records_from_csv, __verify_values_column.
    replace (col <? 1)%Z with false by (symmetry; apply Z.ltb_ge; lia).
    reflexivity.
Qed.

Lemma empty_array_record_witness :
  read_records_from_csv [["0"; "A::B"]] 1 0
  = OK [mkPureRecord ["A"; "B"] (JArr [])].
Proof.
  apply (empty_array_record ["A"; "B"] "A::B" 1 [] []). lia.
Defined.

(** ** The reader: markers, ends of rows and skipped rows *)

(** C3.  With a key row whose marker is neither the scalar marker nor a
    literal [int] reads, [read_one_record] raises the [ValueError] of [int]
    when it counts the value rows to read, before any value row is read and
    before the record is built; [verify] on the record of that marker, had
    it been built, raises the verification failure of an invalid type sign.
    So it is for the key row of marker [abc] and key [A::B] followed by one
    value row. *)
Theorem invalid_marker_raises_ValueError (col : Z) (typesig key : string)
  (rest : list row) (vs : list json) :
  String.eqb typesig TYPE_SCALAR = false -> py_int typesig = None ->
  read_one_record col ([typesig; key] :: rest) = Err ValueError
  /\ read_all_records col ([typesig; key] :: rest) = Err ValueError
  /\ verify (mkCSVRecord typesig key vs)
     = Err (CSVRecordVerificationFailure (InvalidTypeSign typesig))
  /\ read_records_from_csv [["abc"; "A::B"]; [""; "x"]] 1 0 = Err ValueError.
Proof.
  intros Hs Hi.
  assert (H1 : read_one_record col ([typesig; key] :: rest) = Err ValueError).
  { rewrite read_one_record_cons. cbn [nth].
    unfold get_number_of_values_for_type. rewrite Hs, Hi. reflexivity. }
  repeat split.
  - exact H1.
  - rewrite read_all_records_eq, H1. reflexivity.
  - unfold verify, __verify_array, __verify_length_sign. cbn [type].
    rewrite Hs, Hi. reflexivity.
Qed.

Lemma invalid_marker_raises_ValueError_witness :
  read_one_record 1 [["abc"; "A::B"]; [""; "x"]] = Err ValueError
  /\ verify (mkCSVRecord "abc" "A::B" [JStr "x"])
     = Err (CSVRecordVerificationFailure (InvalidTypeSign "abc")).
Proof.
  pose proof (invalid_marker_raises_ValueError 1 "abc" "A::B" [[""; "x"]]
                [JStr "x"] eq_refl eq_refl) as (H1 & _ & H3 & _).
  split; [exact H1|exact H3].
Defined.

(** C7.  [read_all_records] ends without an error exactly at a record
    boundary: reading a record raises the end of the rows if and only if no
    row is left, which ends the loop with the records read; a record read
    is followed by the records of the rows left; any other exception goes
    through.  When a key row counts more value rows than the rows that
    follow it, all of them value rows, the read raises the format exception
    that tells the count expected and the count read; so it does for the
    key row of marker [2] followed by one value row. *)
Theorem read_all_records_ends_at_record_boundary (col : Z)
  (typesig key : string) (number : Z) (rest : list row) (vs : list string) :
  get_number_of_values_for_type typesig = OK number ->
  map_result (_get_row_value col) rest = OK vs ->
  (Z.of_nat (length rest) < number)%Z ->
  read_all_records col [] = OK []
  /\ (forall rows,
         read_one_record col rows = Err CSVEndOfRowsException <-> rows = [])
  /\ (forall rows rec rows',
         read_one_record col rows = OK (rec, rows') ->
         read_all_records col rows
         = (records <- read_all_records col rows' ;; OK (rec :: records)))
  /\ (forall rows e,
         read_one_record col rows = Err e -> e <> CSVEndOfRowsException ->
         read_all_records col rows = Err e)
  /\ read_all_records col ([typesig; key] :: rest)
     = Err (CSVFormatException (ExpectedRows number (length rest) vs)).
Proof.
  intros Hn Hvs Hlt. repeat split.
  - now apply read_one_record_end.
  - now apply read_one_record_end.
  - intros rows rec rows' H. now rewrite read_all_records_eq, H.
  - intros rows e H He. rewrite read_all_records_eq, H.
    destruct e; try reflexivity. contradiction.
  - rewrite read_all_records_eq, read_one_record_cons. cbn [nth].
    rewrite Hn. unfold bind at 1 2. cbn [_verify_key_row length Nat.eqb].
    rewrite _read_value_rows_eq.
    replace (number >? 0)%Z with true by (symmetry; apply Z.gtb_lt; lia).
    rewrite (_gen_values_all col _ rest vs Hvs) by lia.
    unfold bind, _verify_values_number.
    rewrite (map_result_length _ _ _ Hvs).
    replace (Z.of_nat (length rest) =? number)%Z with false
      by (symmetry; apply Z.eqb_neq; lia).
    reflexivity.
Qed.

Lemma read_all_records_ends_at_record_boundary_witness :
  read_all_records 1 [["2"; "A::B"]; [""; "x"]]
  = Err (CSVFormatException (ExpectedRows 2 1 ["x"])).
Proof.
  apply (read_all_records_ends_at_record_boundary 1 "2" "A::B" 2 [[""; "x"]]
           ["x"]); [reflexivity|reflexivity|reflexivity].
Defined.

(** C8.  With [N] rows to skip, [read_records_from_csv] takes the first [N]
    rows off, whatever they hold and without an error, fewer when fewer are
    there, and record parsing starts at the row that follows them: past its
    check of the column, the result is that of [read_all_records] on the
    rows left, each record converted; so a scalar record that follows any
    [N] rows is the one record read. *)
Theorem skipped_rows_are_discarded (rows : list row) (col n : Z) :
  skip_iter_items rows n = skipn (Z.to_nat n) rows
  /\ read_records_from_csv rows col n
     = read_records_from_csv (skipn (Z.to_nat n) rows) col 0
  /\ (forall skipped,
         read_records_from_csv (skipped ++ rows) col
           (Z.of_nat (length skipped))
         = read_records_from_csv rows col 0)
  /\ read_records_from_csv rows col n
     = (_ <- __verify_values_column col ;;
        records <- read_all_records col (skipn (Z.to_nat n) rows) ;;
        map_result to_pure_record records)
  /\ (forall skipped,
         read_records_from_csv (skipped ++ rows) col
           (Z.of_nat (length skipped))
         = (_ <- __verify_values_column col ;;
            records <- read_all_records col rows ;;
            map_result to_pure_record records))
  /\ (forall (skipped : list row) (k v : string),
         read_records_from_csv (skipped ++ [["-"; k]; [""; v]]) 1
           (Z.of_nat (length skipped))
         = OK [mkPureRecord (from_str k) (JStr v)]).
Proof.
  assert (H : forall l m, skip_iter_items l m = skipn (Z.to_nat m) l)
    by (intros; apply skip_rows_skipn).
  assert (H' : forall l m,
             read_records_from_csv l col m
             = read_records_from_csv (skipn (Z.to_nat m) l) col 0).
  { intros l m. unfold read_records_from_csv. now rewrite !H. }
  assert (Hskip : forall (skipped l : list row),
             skipn (Z.to_nat (Z.of_nat (length skipped))) (skipped ++ l) = l).
  { intros skipped l.
    now rewrite Nat2Z.id, skipn_app, skipn_all, Nat.sub_diag. }
  repeat split; [apply H|apply H'| | | |].
  - intros skipped. now rewrite H', Hskip.
  - unfold read_records_from_csv. now rewrite H.
  - intros skipped. unfold read_records_from_csv. now rewrite H, Hskip.
  - intros skipped k v. unfold read_records_from_csv.
    now rewrite H, Hskip.
Qed.

(** ** The builder: the last part of a name *)

Lemma include_at_err (key_seq : list string) :
  forall self last v e,
    include_at self key_seq last v = Err e -> e = TypeError.
Proof.
  induction key_seq as [|k ks IH]; intros self last v e; [discriminate|].
  cbn [include_at]. unfold bind.
  destruct (dict_get self k) as [[]|].
  all: try (intros H; inversion H; reflexivity).
  - destruct (include_at members ks last v) eqn:Hi; [discriminate|].
    intros H. inversion H; subst. now apply IH in Hi.
  - destruct (include_at [] ks last v) eqn:Hi; [discriminate|].
    intros H. inversion H; subst. now apply IH in Hi.
Qed.

(** C10.  Splitting a string on the separator gives at least one part, so
    every record read from rows has a name of at least one part, its last
    part is there for the builder to take, and including the record never
    raises an [IndexError]. *)
Theorem records_read_have_a_last_part (rows : list row) (col skip : Z)
  (records : list PureRecord) (record : PureRecord) :
  read_records_from_csv rows col skip = OK records -> In record records ->
  (forall name, from_str name <> [])
  /\ name_parts record <> []
  /\ (exists last, py_getitem (name_parts record) (-1) = OK last)
  /\ (forall self, include_record self record <> Err IndexError).
Proof.
  intros Hread Hin.
  assert (Hname : name_parts record <> []).
  { unfold read_records_from_csv, bind in Hread.
    destruct (__verify_values_column col); [|discriminate].
    destruct (read_all_records col _) as [csv_recs|]; [|discriminate].
    destruct (map_result_In _ _ _ _ Hread Hin) as (c & _ & Hc).
    unfold to_pure_record, bind in Hc.
    destruct (if String.eqb (type c) TYPE_SCALAR then _ else _);
      [|discriminate].
    inversion Hc. cbn. apply split_nonempty. }
  destruct (py_getitem_nonempty _ Hname) as [last Hlast].
  repeat split.
  - intros name. apply split_nonempty.
  - exact Hname.
  - now exists last.
  - intros self H. unfold include_record in H. rewrite Hlast in H.
    cbn [bind] in H. apply include_at_err in H. discriminate.
Qed.

Lemma records_read_have_a_last_part_witness :
  name_parts (mkPureRecord ["A"; "B"] (JStr "x")) <> [].
Proof.
  apply (records_read_have_a_last_part [["-"; "A::B"]; [""; "x"]] 1 0
           [mkPureRecord ["A"; "B"] (JStr "x")]
           (mkPureRecord ["A"; "B"] (JStr "x")));
    [reflexivity|now left].
Defined.

(** ** Names: parsing what was rendered *)

(** C5, as amended.  For every name of at least one part, no part of which
    holds the separator and no part of which but the last ends with a colon,
    parsing the rendered name gives the name back. *)
Theorem name_parts_round_trip (parts : RecordNameParts) :
  separable parts = true -> from_str (to_str parts) = parts.
Proof. apply split_join. Qed.

Lemma name_parts_round_trip_witness :
  from_str (to_str ["Cards"; "Strike"; "NAME"]) = ["Cards"; "Strike"; "NAME"].
Proof. apply (name_parts_round_trip ["Cards"; "Strike"; "NAME"]). reflexivity. Defined.

(** C5 as stated fails: no part of the name [a:], [b] holds the separator,
    yet its rendering [a:::b] parses to [a], [:b]; and the name of no part
    renders to the empty string, which parses to one empty part. *)
Lemma name_parts_round_trip_counterexample :
  forallb (fun p => negb (contains_sep p)) ["a:"; "b"] = true
  /\ from_str (to_str ["a:"; "b"]) = ["a"; ":b"]
  /\ from_str (to_str ["a:"; "b"]) <> ["a:"; "b"]
  /\ from_str (to_str []) <> [].
Proof. repeat split; discriminate. Qed.

(** ** The builder on the records of a document *)

Lemma dict_set_new (d : list (string * json)) (k : string) (v : json) :
  dict_get d k = None -> dict_set d k v = d ++ [(k, v)].
Proof.
  induction d as [|[k' v'] d IH]; [reflexivity|].
  cbn [dict_get dict_set app]. destruct (String.eqb k' k); [discriminate|].
  intros H. now rewrite IH.
Qed.

Lemma dict_get_last (d : list (string * json)) (k : string) (v : json) :
  dict_get d k = None -> dict_get (d ++ [(k, v)]) k = Some v.
Proof.
  induction d as [|[k' v'] d IH].
  - intros _. cbn. now rewrite String.eqb_refl.
  - cbn [dict_get app]. destruct (String.eqb k' k); [discriminate|exact IH].
Qed.

Lemma dict_set_last (d : list (string * json)) (k : string) (v v' : json) :
  dict_get d k = None -> dict_set (d ++ [(k, v)]) k v' = d ++ [(k, v')].
Proof.
  induction d as [|[k0 v0] d IH].
  - intros _. cbn. now rewrite String.eqb_refl.
  - cbn [dict_get dict_set app]. destruct (String.eqb k0 k); [discriminate|].
    intros H. now rewrite IH.
Qed.

Lemma dict_get_other (d : list (string * json)) (k k' : string) (v : json) :
  String.eqb k k' = false ->
  dict_get (d ++ [(k, v)]) k' = dict_get d k'.
Proof.
  intros Hne. induction d as [|[k0 v0] d IH].
  - cbn. now rewrite Hne.
  - cbn [dict_get app]. now rewrite IH.
Qed.

Lemma include_records_app (records records' : list PureRecord) :
  forall d,
    include_records d (records ++ records')
    = d' <- include_records d records ;; include_records d' records'.
Proof.
  induction records as [|r records IH]; intros d; [reflexivity|].
  cbn [app include_records]. unfold bind at 1 3.
  destruct (include_record d r); [apply IH|reflexivity].
Qed.

Lemma include_record_snoc (d : list (string * json)) (l : list string)
  (x : string) (v : json) :
  include_record d (mkPureRecord (l ++ [x]) v) = include_at d l x v.
Proof.
  unfold include_record. cbn [name_parts value].
  now rewrite py_getitem_last, removelast_last.
Qed.

Lemma include_record_under_new (d c0 : list (string * json)) (k : string)
  (record : PureRecord) :
  dict_get d k = None -> name_parts record <> [] ->
  include_record (d ++ [(k, JObj c0)]) (under k record)
  = c <- include_record c0 record ;; OK (d ++ [(k, JObj c)]).
Proof.
  intros Hd Hne. destruct record as [parts v]. cbn [name_parts] in Hne.
  destruct (exists_last Hne) as (l & x & ->). unfold under.
  cbn [name_parts value].
  change (k :: l ++ [x]) with ((k :: l) ++ [x]).
  rewrite !include_record_snoc. cbn [include_at].
  rewrite (dict_get_last d k (JObj c0) Hd). unfold bind.
  destruct (include_at c0 l x v); [|reflexivity].
  now rewrite dict_set_last.
Qed.

Lemma include_record_under_first (d : list (string * json)) (k : string)
  (record : PureRecord) :
  dict_get d k = None -> name_parts record <> [] ->
  include_record d (under k record)
  = c <- include_record [] record ;; OK (d ++ [(k, JObj c)]).
Proof.
  intros Hd Hne. destruct record as [parts v]. cbn [name_parts] in Hne.
  destruct (exists_last Hne) as (l & x & ->). unfold under.
  cbn [name_parts value].
  change (k :: l ++ [x]) with ((k :: l) ++ [x]).
  rewrite !include_record_snoc. cbn [include_at].
  rewrite Hd. unfold bind.
  destruct (include_at [] l x v); [|reflexivity].
  now rewrite dict_set_new.
Qed.

Lemma include_records_under (records : list PureRecord) (k : string) :
  Forall (fun r => name_parts r <> []) records ->
  forall d c0,
    dict_get d k = None ->
    include_records (d ++ [(k, JObj c0)]) (map (under k) records)
    = c <- include_records c0 records ;; OK (d ++ [(k, JObj c)]).
Proof.
  induction 1 as [|r records Hr Hrs IH]; intros d c0 Hd; [reflexivity|].
  cbn [map include_records].
  rewrite include_record_under_new by assumption.
  unfold bind at 1 2 4.
  destruct (include_record c0 r); [now apply IH|reflexivity].
Qed.

Lemma include_records_under_first (records : list PureRecord) (k : string) :
  Forall (fun r => name_parts r <> []) records -> records <> [] ->
  forall d,
    dict_get d k = None ->
    include_records d (map (under k) records)
    = c <- include_records [] records ;; OK (d ++ [(k, JObj c)]).
Proof.
  intros Hall Hne d Hd. destruct records as [|r records]; [contradiction|].
  inversion Hall as [|? ? Hr Hrs]; subst.
  cbn [map include_records].
  rewrite include_record_under_first by assumption.
  unfold bind at 1 2 4.
  destruct (include_record [] r); [|reflexivity].
  now apply include_records_under.
Qed.

(** The predicates on documents, one member at a time. *)
Lemma string_leaves_cons (k : string) (v : json) (ms : list (string * json)) :
  string_leaves (JObj ((k, v) :: ms))
  = string_leaves v && string_leaves (JObj ms).
Proof. reflexivity. Qed.

Lemma keys_without_sep_cons (k : string) (v : json)
  (ms : list (string * json)) :
  keys_without_sep (JObj ((k, v) :: ms))
  = negb (contains_sep k) && keys_without_sep v && keys_without_sep (JObj ms).
Proof. reflexivity. Qed.

Lemma unique_keys_cons (k : string) (v : json) (ms : list (string * json)) :
  unique_keys (JObj ((k, v) :: ms))
  = negb (has_key k ms) && unique_keys v && unique_keys (JObj ms).
Proof. reflexivity. Qed.

Lemma nested_objects_kept_cons (k : string) (v : json)
  (ms : list (string * json)) :
  nested_objects_kept (JObj ((k, v) :: ms))
  = match v with
    | JObj [] => false
    | JObj _ => negb (ends_with_colon k)
    | _ => true
    end && nested_objects_kept v && nested_objects_kept (JObj ms).
Proof. reflexivity. Qed.

Ltac split_andb :=
  repeat match goal with
         | H : (_ && _)%bool = true |- _ =>
             apply andb_true_iff in H; destruct H
         | H : negb _ = true |- _ => apply negb_true_iff in H
         end.

Lemma collect_under (value : json) :
  forall members, value = JObj members ->
  forall k parent,
    collect_records_from_json members (k :: parent)
    = map (under k) (collect_records_from_json members parent).
Proof.
  induction value as [| | | | | |ms IH] using json_induction;
    intros members Heq; try discriminate.
  inversion Heq; subst members. clear Heq.
  induction ms as [|[k0 v] ms IHms]; intros k parent; [reflexivity|].
  inversion IH as [|kv l Hv Hms]; subst. cbn [snd] in Hv.
  rewrite !collect_cons, map_app, (IHms Hms). f_equal.
  destruct v; try reflexivity.
  cbn [is_Sequence]. now apply Hv.
Qed.

Lemma separable_snoc (parent : RecordNameParts) (k : string) :
  Forall (fun p => contains_sep p = false /\ ends_with_colon p = false)
    parent ->
  contains_sep k = false -> separable (parent ++ [k]) = true.
Proof.
  intros Hall Hk. induction Hall as [|p parent [Hsep Hend] _ IH].
  - cbn. now rewrite Hk.
  - cbn [app]. destruct (parent ++ [k]) as [|q rest] eqn:Heq.
    + symmetry in Heq. now apply app_cons_not_nil in Heq.
    + change (separable (p :: q :: rest))
        with (negb (contains_sep p) && negb (ends_with_colon p)
              && separable (q :: rest)).
      now rewrite Hsep, Hend, IH.
Qed.

(** The records of a document whose leaves are strings and arrays of
    strings, whose keys are free of the separator and whose nested objects
    are kept: their values are such leaves and their names separable. *)
Lemma collect_facts (doc : json) :
  forall members, doc = JObj members ->
  string_leaves doc = true -> keys_without_sep doc = true ->
  nested_objects_kept doc = true ->
  forall parent,
    Forall (fun p => contains_sep p = false /\ ends_with_colon p = false)
      parent ->
    Forall (fun r => is_Sequence (value r) = true
                     /\ string_leaves (value r) = true
                     /\ separable (name_parts r) = true)
      (collect_records_from_json members parent).
Proof.
  induction doc as [| | | | | |ms IH] using json_induction;
    intros members Heq; try discriminate.
  inversion Heq; subst members. clear Heq.
  induction ms as [|[k v] ms IHms]; intros Hl Hk Hn parent Hp;
    [constructor|].
  inversion IH as [|kv l Hv Hms]; subst. cbn [snd] in Hv.
  rewrite string_leaves_cons in Hl. rewrite keys_without_sep_cons in Hk.
  rewrite nested_objects_kept_cons in Hn. split_andb.
  rewrite collect_cons. apply Forall_app. split; [|now apply IHms].
  destruct v as [| | | | |items|m]; try discriminate.
  - cbn [is_Sequence]. constructor; [|constructor].
    repeat split; try assumption; now apply separable_snoc.
  - cbn [is_Sequence]. constructor; [|constructor].
    repeat split; try assumption; now apply separable_snoc.
  - cbn [is_Sequence]. apply (Hv m eq_refl); try assumption.
    apply Forall_app. split; [assumption|].
    constructor; [|constructor].
    destruct m; [discriminate|]. split_andb. now split.
Qed.

Lemma collect_nonempty (value : json) :
  forall members, value = JObj members ->
  string_leaves value = true -> nested_objects_kept value = true ->
  members <> [] ->
  forall parent, collect_records_from_json members parent <> [].
Proof.
  induction value as [| | | | | |ms IH] using json_induction;
    intros members Heq; try discriminate.
  inversion Heq; subst members. clear Heq.
  intros Hl Hn Hne parent. destruct ms as [|[k v] ms]; [contradiction|].
  inversion IH as [|kv l Hv Hms]; subst. cbn [snd] in Hv.
  rewrite string_leaves_cons in Hl.
  rewrite nested_objects_kept_cons in Hn. split_andb.
  rewrite collect_cons.
  destruct v as [| | | | |items|m]; try discriminate.
  cbn [is_Sequence]. intros Happ. apply app_eq_nil in Happ.
  destruct Happ as [Happ _]. revert Happ.
  apply (Hv m eq_refl); try assumption.
  destruct m; discriminate.
Qed.

Lemma has_key_false (k : string) (ms : list (string * json)) :
  has_key k ms = false ->
  Forall (fun kv => String.eqb k (fst kv) = false) ms.
Proof.
  induction ms as [|[k' v] ms IH]; [constructor|].
  unfold has_key. cbn [existsb fst]. intros H.
  apply orb_false_iff in H. destruct H as [H1 H2].
  constructor; [|now apply IH].
  cbn [fst]. now rewrite String.eqb_sym.
Qed.

(** Including the records of a document in a dict that has none of its keys
    puts its members, as they are, after those of the dict. *)
Lemma include_collected (value : json) :
  forall members, value = JObj members ->
  string_leaves value = true -> keys_without_sep value = true ->
  unique_keys value = true -> nested_objects_kept value = true ->
  forall d,
    Forall (fun kv => dict_get d (fst kv) = None) members ->
    include_records d (collect_records_from_json members [])
    = OK (d ++ members).
Proof.
  induction value as [| | | | | |ms IH] using json_induction;
    intros members Heq; try discriminate.
  inversion Heq; subst members. clear Heq.
  induction ms as [|[k v] ms IHms]; intros Hl Hk Hu Hn d Hd.
  - cbn. now rewrite app_nil_r.
  - inversion IH as [|kv l Hv Hms]; subst. cbn [snd] in Hv.
    inversion Hd as [|kv l Hdk Hdms]; subst. cbn [fst] in Hdk.
    rewrite string_leaves_cons in Hl. rewrite keys_without_sep_cons in Hk.
    rewrite unique_keys_cons in Hu.
    pose proof Hn as Hn'.
    rewrite nested_objects_kept_cons in Hn. split_andb.
    assert (Hnext : forall v',
               include_records (d ++ [(k, v')])
                 (collect_records_from_json ms [])
               = OK (d ++ (k, v') :: ms)).
    { intros v'. rewrite (IHms Hms) by
        (try assumption;
         match goal with
         | |- Forall _ _ =>
             let Hf := fresh in
             pose proof (has_key_false k ms ltac:(assumption)) as Hf;
             clear - Hf Hdms; induction ms as [|kv ms IHf];
             [constructor|];
             inversion Hf; inversion Hdms; subst;
             constructor; [rewrite dict_get_other by assumption; assumption
                          |now apply IHf]
         end).
      now rewrite <- app_assoc. }
    rewrite collect_cons, include_records_app.
    destruct v as [| | | | |items|m]; try discriminate.
    + cbn [is_Sequence include_records]. unfold add_part.
      rewrite include_record_snoc. cbn [include_at bind].
      rewrite dict_set_new by assumption. apply Hnext.
    + cbn [is_Sequence include_records]. unfold add_part.
      rewrite include_record_snoc. cbn [include_at bind].
      rewrite dict_set_new by assumption. apply Hnext.
    + cbn [is_Sequence]. unfold add_part. cbn [app].
      rewrite (collect_under (JObj m) m eq_refl).
      assert (Hm : m <> []) by (destruct m; discriminate).
      rewrite include_records_under_first; try assumption.
      * rewrite (Hv m eq_refl) by (try assumption; clear;
          induction m; constructor; auto).
        cbn [bind app]. apply Hnext.
      * eapply Forall_impl;
          [|apply (collect_facts (JObj m) m eq_refl); try assumption;
            constructor].
        intros r (_ & _ & Hs) Heq. rewrite Heq in Hs. discriminate.
      * now apply (collect_nonempty (JObj m) m eq_refl).
Qed.

(** ** Rows written and read back *)

Lemma map_JStr_text (items : list json) :
  forallb is_str items = true -> map JStr (map text_of items) = items.
Proof.
  induction items as [|v items IH]; [reflexivity|].
  cbn [forallb map]. intros H. split_andb.
  destruct v; try discriminate. cbn [text_of]. now rewrite IH.
Qed.

Lemma rows_text_app (a b : list out_row) (a' b' : list row) :
  rows_text a = Some a' -> rows_text b = Some b' ->
  rows_text (a ++ b) = Some (a' ++ b').
Proof.
  unfold rows_text. revert a'.
  induction a as [|r a IH]; intros a' Ha Hb.
  - inversion Ha. exact Hb.
  - cbn [app map_option] in *.
    destruct (map_option cell_text r); [|discriminate].
    destruct (map_option (map_option cell_text) a) as [ta|]; [|discriminate].
    inversion Ha. now rewrite (IH ta eq_refl Hb).
Qed.

Lemma rows_text_values (items : list json) :
  forallb is_str items = true ->
  rows_text (map (fun v => [JStr VALUE_ROW_TYPE; v]) items)
  = Some (map (fun v => [VALUE_ROW_TYPE; v]) (map text_of items)).
Proof.
  unfold rows_text. induction items as [|v items IH]; [reflexivity|].
  cbn [forallb map]. intros H. split_andb.
  destruct v; try discriminate.
  cbn [map_option cell_text text_of]. now rewrite IH.
Qed.

Lemma _get_row_value_written (v : string) :
  _get_row_value 1 [VALUE_ROW_TYPE; v] = OK v.
Proof. reflexivity. Qed.

Lemma _gen_values_written (vs : list string) (rest : list row) :
  _gen_values 1 (length vs) (map (fun v => [VALUE_ROW_TYPE; v]) vs ++ rest)
  = OK (vs, rest).
Proof.
  induction vs as [|v vs IH]; [reflexivity|].
  cbn [length map app _gen_values].
  rewrite _get_row_value_written, IH. reflexivity.
Qed.

Lemma _read_value_rows_written (vs : list string) (rest : list row) :
  _read_value_rows 1 (Z.of_nat (length vs))
    (map (fun v => [VALUE_ROW_TYPE; v]) vs ++ rest)
  = OK (vs, rest).
Proof.
  rewrite _read_value_rows_eq. destruct vs as [|v vs]; [reflexivity|].
  replace (Z.of_nat (length (v :: vs)) >? 0)%Z with true
    by (symmetry; apply Z.gtb_lt; cbn [length]; lia).
  rewrite Nat2Z.id, _gen_values_written. unfold bind, _verify_values_number.
  now rewrite Z.eqb_refl.
Qed.

Lemma verify_written (key : string) (vs : list string) :
  verify (mkCSVRecord (str_of_nat (length vs)) key (map JStr vs)) = OK tt.
Proof.
  unfold verify, __verify_array, __verify_length_sign. cbn [type values].
  rewrite str_of_nat_not_scalar, py_int_str_of_nat. cbn [bind].
  now rewrite length_map, Z.eqb_refl.
Qed.

Lemma read_one_record_written (key : string) (vs : list string)
  (rest : list row) :
  read_one_record 1 (record_rows (str_of_nat (length vs)) key vs ++ rest)
  = OK (mkCSVRecord (str_of_nat (length vs)) key (map JStr vs), rest).
Proof.
  unfold record_rows. cbn [app]. rewrite read_one_record_cons. cbn [nth].
  unfold get_number_of_values_for_type.
  rewrite str_of_nat_not_scalar, py_int_str_of_nat.
  change (_verify_key_row [str_of_nat (length vs); key]) with (OK tt).
  cbn [bind]. rewrite _read_value_rows_written. cbn [bind].
  now rewrite verify_written.
Qed.

(** A record of a string or of strings, under a separable name: the record
    it is written as, the rows of that record, and what is read back from
    them. *)
Lemma record_written_and_read (record : PureRecord) :
  is_Sequence (value record) = true ->
  string_leaves (value record) = true ->
  separable (name_parts record) = true ->
  exists csv_rec,
    from_pure_record record = OK csv_rec
    /\ (forall w wt,
           rows_text w = Some wt ->
           rows_text (write_to_csv csv_rec w)
           = Some (wt ++ record_text_rows record))
    /\ (forall rest,
           read_one_record 1 (record_text_rows record ++ rest)
           = OK (csv_rec, rest))
    /\ to_pure_record csv_rec = OK record.
Proof.
  destruct record as [parts v]. cbn [value name_parts].
  intros Hseq Hleaves Hsep. unfold from_pure_record, record_text_rows.
  cbn [value name_parts].
  destruct v as [| | | |s|items|]; try discriminate.
  - eexists. split; [reflexivity|]. repeat split.
    + intros w wt Hw. unfold write_to_csv. cbn [type key values map].
      rewrite <- app_assoc. now apply rows_text_app.
    + unfold to_pure_record. cbn [type key values bind py_getitem].
      unfold from_str, to_str. now rewrite split_join.
  - cbn [string_leaves] in Hleaves.
    eexists. split; [reflexivity|]. repeat split.
    + intros w wt Hw. unfold write_to_csv. cbn [type key values].
      rewrite <- app_assoc. apply rows_text_app; [assumption|].
      unfold record_rows. change (?x :: ?l) with ([x] ++ l) at 1.
      change ([JStr ?a; JStr ?b] :: ?l) with ([[JStr a; JStr b]] ++ l).
      apply (rows_text_app [_] _ [_]); [reflexivity|].
      now apply rows_text_values.
    + intros rest. rewrite <- (length_map text_of items).
      rewrite read_one_record_written.
      now rewrite map_JStr_text, length_map by assumption.
    + unfold to_pure_record. cbn [type key values].
      rewrite str_of_nat_not_scalar. cbn [bind].
      unfold from_str, to_str. now rewrite split_join.
Qed.

Lemma write_records_written (records : list PureRecord) :
  Forall (fun r => is_Sequence (value r) = true
                   /\ string_leaves (value r) = true
                   /\ separable (name_parts r) = true) records ->
  forall w wt,
    rows_text w = Some wt ->
    exists w',
      write_records_to_csv w records = (w', OK tt)
      /\ rows_text w' = Some (wt ++ flat_map record_text_rows records).
Proof.
  induction 1 as [|r records (Hseq & Hl & Hsep) _ IH]; intros w wt Hw.
  - exists w. split; [reflexivity|]. cbn. now rewrite app_nil_r.
  - destruct (record_written_and_read r Hseq Hl Hsep)
      as (c & Hc & Hrows & _).
    destruct (IH _ _ (Hrows _ _ Hw)) as (w' & Hw' & Ht).
    exists w'. cbn [write_records_to_csv flat_map]. rewrite Hc.
    split; [exact Hw'|]. now rewrite Ht, <- app_assoc.
Qed.

Lemma read_records_written (records : list PureRecord) :
  Forall (fun r => is_Sequence (value r) = true
                   /\ string_leaves (value r) = true
                   /\ separable (name_parts r) = true) records ->
  read_records_from_csv (flat_map record_text_rows records) 1 0 = OK records.
Proof.
  unfold read_records_from_csv, skip_iter_items.
  change (skip_rows (Z.to_nat 0) ?l) with l.
  change (__verify_values_column 1) with (OK tt). cbn [bind].
  induction 1 as [|r records (Hseq & Hl & Hsep) _ IH]; [reflexivity|].
  destruct (record_written_and_read r Hseq Hl Hsep)
    as (c & _ & _ & Hread & Hpure).
  cbn [flat_map]. rewrite read_all_records_eq, Hread.
  destruct (read_all_records 1 (flat_map record_text_rows records))
    as [cs|]; [|discriminate].
  cbn [bind map_result]. rewrite Hpure. cbn [bind] in *.
  now rewrite IH.
Qed.

(** ** JSON to rows and back *)

(** C1, as amended.  For every JSON object whose leaves are only strings or
    arrays of strings, whose keys hold no separator, in which no key of a
    nested object ends with a colon and no nested object is empty (keys
    being unique in each object, as in any dict), flattening it to records,
    writing the records as rows, reading the rows back from column 1 and
    building the object again gives the object itself, key order
    included. *)
Theorem json_round_trip_kept (json_dict : list (string * json)) :
  string_leaves (JObj json_dict) = true ->
  keys_without_sep (JObj json_dict) = true ->
  unique_keys (JObj json_dict) = true ->
  nested_objects_kept (JObj json_dict) = true ->
  json_round_trip json_dict = Some (OK json_dict).
Proof.
  intros Hl Hk Hu Hn.
  pose proof (collect_facts (JObj json_dict) json_dict eq_refl Hl Hk Hn []
                (Forall_nil _)) as Hfacts.
  destruct (write_records_written _ Hfacts [] [] eq_refl)
    as (w' & Hw & Ht).
  unfold json_round_trip, json_to_rows. rewrite Hw, Ht. cbn [app].
  unfold rows_to_json. rewrite (read_records_written _ Hfacts).
  cbn [bind]. unfold write_records_to_json.
  rewrite (include_collected (JObj json_dict) json_dict eq_refl)
    by (try assumption; clear; induction json_dict; constructor; auto).
  reflexivity.
Qed.

Lemma json_round_trip_kept_witness :
  json_round_trip
    [("Cards", JObj [("Strike", JObj [("NAME", JStr "Strike");
                                      ("DESC", JArr [JStr "a"; JStr "b"])])]);
     ("E", JArr [])]
  = Some (OK
    [("Cards", JObj [("Strike", JObj [("NAME", JStr "Strike");
                                      ("DESC", JArr [JStr "a"; JStr "b"])])]);
     ("E", JArr [])]).
Proof.
  apply (json_round_trip_kept
    [("Cards", JObj [("Strike", JObj [("NAME", JStr "Strike");
                                      ("DESC", JArr [JStr "a"; JStr "b"])])]);
     ("E", JArr [])]); reflexivity.
Defined.

(** C1 as stated fails.  The leaves of [{"a:": {"b": "x"}}] are strings and
    no key of it holds the separator, yet the one record of it is written
    under the key [a:::b], which is read back as the name [a], [:b]: the
    object built is [{"a": {":b": "x"}}].  And [{"a": {}}], which has no
    leaf at all, gives no record, so that the object built is empty. *)
Lemma json_round_trip_counterexample :
  string_leaves (JObj [("a:", JObj [("b", JStr "x")])]) = true
  /\ keys_without_sep (JObj [("a:", JObj [("b", JStr "x")])]) = true
  /\ unique_keys (JObj [("a:", JObj [("b", JStr "x")])]) = true
  /\ json_round_trip [("a:", JObj [("b", JStr "x")])]
     = Some (OK [("a", JObj [(":b", JStr "x")])])
  /\ json_round_trip [("a:", JObj [("b", JStr "x")])]
     <> Some (OK [("a:", JObj [("b", JStr "x")])])
  /\ string_leaves (JObj [("a", JObj [])]) = true
  /\ json_round_trip [("a", JObj [])] = Some (OK []).
Proof. repeat split; discriminate. Qed.

(** ** More on names *)

Lemma join_cons_head (c : ascii) (parts : list string) :
  parts <> [] -> join (cons_head c parts) = String c (join parts).
Proof.
  destruct parts as [|h [|q r]]; [contradiction|reflexivity|reflexivity].
Qed.

Lemma join_split_both (s : string) :
  join (split s) = s /\ forall c, join (split (String c s)) = String c s.
Proof.
  induction s as [|c' rest' [IH1 IH2]]; [split; reflexivity|].
  split; [apply IH2|]. intros c.
  change (split (String c (String c' rest')))
    with (if (Ascii.eqb c colon && Ascii.eqb c' colon)%bool
          then "" :: split rest'
          else cons_head c (split (String c' rest'))).
  destruct (Ascii.eqb c colon && Ascii.eqb c' colon)%bool eqn:Hcc.
  - apply andb_true_iff in Hcc. destruct Hcc as [Hc Hc'].
    apply Ascii.eqb_eq in Hc, Hc'. subst c c'.
    pose proof (split_nonempty rest') as Hne.
    destruct (split rest') as [|h t] eqn:Hs; [contradiction|].
    change (join ("" :: h :: t)) with ("" ++ SEP ++ join (h :: t))%string.
    now rewrite IH1.
  - rewrite join_cons_head by apply split_nonempty. now rewrite IH2.
Qed.

Lemma contains_sep_cons (c : ascii) (h : string) (c' : ascii) :
  first_part_of c' h -> (Ascii.eqb c colon && Ascii.eqb c' colon)%bool = false ->
  contains_sep h = false -> contains_sep (String c h) = false.
Proof.
  intros Hf Hcc Hh. destruct h as [|d h']; [reflexivity|].
  cbn [first_part_of] in Hf. subst d.
  change (contains_sep (String c (String c' h')))
    with ((Ascii.eqb c colon && Ascii.eqb c' colon)
          || contains_sep (String c' h')).
  now rewrite Hcc, Hh.
Qed.

Lemma ends_with_colon_cons (c : ascii) (h : string) (c' : ascii) :
  first_part_of c' h -> (Ascii.eqb c colon && Ascii.eqb c' colon)%bool = false ->
  ends_with_colon h = false -> ends_with_colon (String c h) = false.
Proof.
  intros Hf Hcc Hh. destruct h as [|d h']; [|exact Hh].
  cbn [first_part_of] in Hf. subst c'. cbn [ends_with_colon].
  rewrite Ascii.eqb_refl, andb_true_r in Hcc. exact Hcc.
Qed.

Lemma separable_split_both (s : string) :
  separable (split s) = true
  /\ forall c, exists h t,
       split (String c s) = h :: t /\ first_part_of c h
       /\ separable (h :: t) = true.
Proof.
  induction s as [|c' rest' [IH1 IH2]].
  - split; [reflexivity|]. intros c. exists (String c ""), [].
    repeat split.
  - split.
    { destruct (IH2 c') as (h & t & -> & _ & Hs). exact Hs. }
    intros c.
    change (split (String c (String c' rest')))
      with (if (Ascii.eqb c colon && Ascii.eqb c' colon)%bool
            then "" :: split rest'
            else cons_head c (split (String c' rest'))).
    destruct (Ascii.eqb c colon && Ascii.eqb c' colon)%bool eqn:Hcc.
    + apply andb_true_iff in Hcc. destruct Hcc as [Hc _].
      apply Ascii.eqb_eq in Hc. exists "", (split rest').
      repeat split; [exact Hc|].
      pose proof (split_nonempty rest') as Hne.
      destruct (split rest') as [|q r]; [contradiction|exact IH1].
    + destruct (IH2 c') as (h & t & -> & Hf & Hs).
      exists (String c h), t. repeat split.
      destruct t as [|q r].
      * cbn [separable] in *. apply negb_true_iff in Hs.
        apply negb_true_iff. now apply (contains_sep_cons c h c').
      * change (separable (h :: q :: r))
          with (negb (contains_sep h) && negb (ends_with_colon h)
                && separable (q :: r)) in Hs.
        change (separable (String c h :: q :: r))
          with (negb (contains_sep (String c h))
                && negb (ends_with_colon (String c h))
                && separable (q :: r)).
        split_andb.
        rewrite (contains_sep_cons c h c'), (ends_with_colon_cons c h c')
          by assumption.
        assumption.
Qed.

(** X1.  Rendering the parts a string parses to gives the string back,
    whatever the string. *)
Theorem to_str_from_str (name : string) : to_str (from_str name) = name.
Proof. apply join_split_both. Qed.

(** X2.  The names that parsing gives back are the separable ones: every
    parsed name is separable, and a name is parsed back from its rendering
    if and only if it is separable. *)
Theorem from_str_to_str_iff_separable :
  (forall name, separable (from_str name) = true)
  /\ (forall parts,
         from_str (to_str parts) = parts <-> separable parts = true).
Proof.
  assert (H : forall name, separable (from_str name) = true)
    by (intros name; apply separable_split_both).
  split; [exact H|]. intros parts. split.
  - intros Heq. rewrite <- Heq. apply H.
  - apply split_join.
Qed.

(** ** More on records *)

(** X3.  A record made from a pure record passes [verify], has the rendered
    name as its key, and converts back to the value it was made from. *)
Theorem from_pure_record_verified (record : PureRecord)
  (csv_rec : CSVRecord) :
  from_pure_record record = OK csv_rec ->
  verify csv_rec = OK tt
  /\ key csv_rec = to_str (name_parts record)
  /\ to_pure_record csv_rec
     = OK (mkPureRecord (from_str (to_str (name_parts record)))
             (value record)).
Proof.
  destruct record as [parts v]. unfold from_pure_record.
  cbn [value name_parts].
  destruct v as [| | | |s|items|]; try discriminate;
    intros H; inversion H; subst; clear H.
  - repeat split.
  - repeat split.
    + unfold verify, __verify_array, __verify_length_sign. cbn [type values].
      rewrite str_of_nat_not_scalar, py_int_str_of_nat. cbn [bind].
      now rewrite Z.eqb_refl.
    + unfold to_pure_record. cbn [type key values].
      now rewrite str_of_nat_not_scalar.
Qed.

Lemma from_pure_record_verified_witness :
  verify (mkCSVRecord "2" "A::B" [JStr "x"; JInt 3]) = OK tt.
Proof.
  apply (from_pure_record_verified
           (mkPureRecord ["A"; "B"] (JArr [JStr "x"; JInt 3]))).
  reflexivity.
Defined.

Lemma verify_ok_to_pure_record (c : CSVRecord) :
  verify c = OK tt -> exists r, to_pure_record c = OK r.
Proof.
  unfold verify, to_pure_record, __verify_scalar.
  destruct (String.eqb (type c) TYPE_SCALAR); [|intros _; eexists; reflexivity].
  destruct (values c) as [|v [|v' vs]]; try discriminate.
  intros _. eexists. reflexivity.
Qed.

(** ** More on the reader *)

Lemma key_row_cells (r : row) :
  _verify_key_row r = OK tt -> r = [nth 0 r ""; nth 1 r ""].
Proof.
  unfold _verify_key_row. destruct r as [|a [|b [|c r]]]; try discriminate.
  reflexivity.
Qed.

Lemma _gen_values_inv (col : Z) (n : nat) (rows rest : list row)
  (vs : list string) :
  _gen_values col n rows = OK (vs, rest) ->
  exists value_rows,
    rows = value_rows ++ rest
    /\ map_result (_get_row_value col) value_rows = OK vs.
Proof.
  revert rows vs. induction n as [|n IH]; intros rows vs.
  - intros H. inversion H. now exists [].
  - destruct rows as [|r rows]; [intros H; inversion H; now exists []|].
    cbn [_gen_values]. unfold bind.
    destruct (_get_row_value col r) as [v|] eqn:Hr; [|discriminate].
    destruct (_gen_values col n rows) as [[vs' rest']|] eqn:Hg;
      [|discriminate].
    intros H. inversion H; subst.
    destruct (IH _ _ Hg) as (value_rows & -> & Hm).
    exists (r :: value_rows). split; [reflexivity|].
    cbn [map_result]. now rewrite Hr, Hm.
Qed.

Lemma verify_counted (typesig key : string) (number : Z) (vs : list string) :
  get_number_of_values_for_type typesig = OK number ->
  Z.of_nat (length vs) = number ->
  verify (mkCSVRecord typesig key (map JStr vs)) = OK tt.
Proof.
  unfold get_number_of_values_for_type, verify, __verify_scalar,
    __verify_array, __verify_length_sign.
  cbn [type values]. rewrite length_map.
  destruct (String.eqb typesig TYPE_SCALAR).
  - intros H Hl. inversion H as [H1]. rewrite <- H1 in Hl.
    destruct vs as [|v [|v' vs]]; try (cbn [length] in Hl; lia). reflexivity.
  - destruct (py_int typesig); [|discriminate].
    intros H Hl. injection H as ->. cbn [bind].
    now rewrite Hl, Z.eqb_refl.
Qed.

(** What [read_one_record] does with a first row, case by case. *)
Lemma read_one_record_cons_spec (col : Z) (r : row) (rows : list row) :
  match read_one_record col (r :: rows) with
  | OK (c, rest) =>
      exists value_rows vs,
        r = [type c; key c] /\ rows = value_rows ++ rest
        /\ map_result (_get_row_value col) value_rows = OK vs
        /\ values c = map JStr vs /\ verify c = OK tt
  | Err (CSVRecordVerificationFailure v) =>
      exists k n,
        r = [nth 0 r ""; k]
        /\ String.eqb (nth 0 r "") TYPE_SCALAR = false
        /\ py_int (nth 0 r "") = Some n /\ (n < 0)%Z
        /\ v = ArrayLengthMismatch n 0
  | Err _ => True
  end.
Proof.
  rewrite read_one_record_cons. unfold bind at 1.
  destruct (_verify_key_row r) as [[]|] eqn:Hk.
  2:{ unfold _verify_key_row in Hk.
      destruct (length r =? 2)%nat; inversion Hk. exact I. }
  apply key_row_cells in Hk. unfold bind at 1.
  destruct (get_number_of_values_for_type (nth 0 r "")) as [number|e] eqn:Hn.
  2:{ unfold get_number_of_values_for_type in Hn.
      destruct (String.eqb (nth 0 r "") TYPE_SCALAR); [discriminate|].
      destruct (py_int (nth 0 r "")); inversion Hn. exact I. }
  rewrite _read_value_rows_eq.
  destruct (Z.gtb_spec number 0) as [Hpos|Hneg].
  - unfold bind at 2.
    destruct (_gen_values col (Z.to_nat number) rows) as [[vs rest]|e] eqn:Hg.
    2:{ cbn [bind]. destruct e; try exact I.
        revert Hg. clear. revert rows.
        induction (Z.to_nat number) as [|n IH]; intros rows; [discriminate|].
        destruct rows as [|r' rows]; [discriminate|].
        cbn [_gen_values]. unfold bind.
        destruct (_get_row_value col r') eqn:Hr.
        - destruct (_gen_values col n rows) as [[? ?]|] eqn:Hg;
            [discriminate|].
          intros H. inversion H; subst. now apply (IH rows).
        - intros H. inversion H; subst.
          destruct (_get_row_value_err _ _ _ Hr); discriminate. }
    unfold _verify_values_number, bind.
    destruct (Z.eqb_spec (Z.of_nat (length vs)) number) as [Hlen|Hlen];
      [|exact I].
    rewrite (verify_counted _ _ _ _ Hn Hlen).
    destruct (_gen_values_inv _ _ _ _ _ Hg) as (value_rows & -> & Hm).
    exists value_rows, vs. cbn [type key values].
    repeat split; try assumption. now apply verify_counted with number.
  - cbn [bind map]. unfold get_number_of_values_for_type in Hn.
    destruct (String.eqb (nth 0 r "") TYPE_SCALAR) eqn:Hs;
      [inversion Hn; lia|].
    destruct (py_int (nth 0 r "")) as [n|] eqn:Hi; inversion Hn; subst n.
    unfold verify, __verify_array, __verify_length_sign. cbn [type values].
    rewrite Hs, Hi. cbn [bind length].
    destruct (Z.eqb_spec (Z.of_nat 0) number) as [H0|H0].
    + exists [], []. cbn [type key values].
      repeat split; try assumption.
      unfold verify, __verify_array, __verify_length_sign.
      cbn [type values]. rewrite Hs, Hi. cbn [bind length].
      now rewrite <- H0.
    + exists (nth 1 r ""), number.
      repeat split; try assumption. cbn in H0. lia.
Qed.

(** X4.  A record read takes the key row and, right after it, as many value
    rows as it has values, and nothing more: the rows are the key row of
    its marker and key, then the rows its values are the selected cells of,
    then the rows left.  The record passes [verify] and converts to a pure
    record. *)
Theorem read_one_record_takes_its_rows (col : Z) (rows rest : list row)
  (c : CSVRecord) :
  read_one_record col rows = OK (c, rest) ->
  exists value_rows vs,
    rows = [type c; key c] :: value_rows ++ rest
    /\ map_result (_get_row_value col) value_rows = OK vs
    /\ values c = map JStr vs
    /\ length value_rows = length (values c)
    /\ verify c = OK tt
    /\ exists r, to_pure_record c = OK r.
Proof.
  destruct rows as [|r rows]; [discriminate|]. intros H.
  pose proof (read_one_record_cons_spec col r rows) as Hs.
  rewrite H in Hs. destruct Hs as (value_rows & vs & -> & -> & Hm & Hv & Hok).
  exists value_rows, vs. repeat split; try assumption.
  - rewrite Hv, length_map. symmetry. now apply map_result_length in Hm.
  - now apply verify_ok_to_pure_record.
Qed.

Lemma read_one_record_takes_its_rows_witness :
  exists value_rows vs,
    [["2"; "A"]; [""; "x"]; [""; "y"]; ["-"; "B"]]
    = [type (mkCSVRecord "2" "A" [JStr "x"; JStr "y"]);
       key (mkCSVRecord "2" "A" [JStr "x"; JStr "y"])]
      :: value_rows ++ [["-"; "B"]]
    /\ map_result (_get_row_value 1) value_rows = OK vs
    /\ values (mkCSVRecord "2" "A" [JStr "x"; JStr "y"]) = map JStr vs
    /\ length value_rows
       = length (values (mkCSVRecord "2" "A" [JStr "x"; JStr "y"]))
    /\ verify (mkCSVRecord "2" "A" [JStr "x"; JStr "y"]) = OK tt
    /\ exists r,
         to_pure_record (mkCSVRecord "2" "A" [JStr "x"; JStr "y"]) = OK r.
Proof.
  apply (read_one_record_takes_its_rows 1
           [["2"; "A"]; [""; "x"]; [""; "y"]; ["-"; "B"]] [["-"; "B"]]
           (mkCSVRecord "2" "A" [JStr "x"; JStr "y"])).
  reflexivity.
Defined.

Lemma py_int_not_scalar (typesig : string) (n : Z) :
  py_int typesig = Some n -> String.eqb typesig TYPE_SCALAR = false.
Proof.
  intros H. destruct (String.eqb_spec typesig TYPE_SCALAR) as [->|];
    [discriminate|reflexivity].
Qed.

(** X5.  Reading a record raises a verification failure exactly on a key
    row whose marker is a negative integer: for such a marker no value row
    is read, the rows after the key row being all left, and the failure is
    that of [verify] on the record of the marker and key with no value,
    which tells the marker against no value.  The reader raises no other
    verification failure. *)
Theorem reader_verification_failure_iff_negative (col : Z) :
  (forall rows v,
      read_one_record col rows = Err (CSVRecordVerificationFailure v) ->
      exists typesig k rest, rows = [typesig; k] :: rest)
  /\ (forall typesig k rest v,
         read_one_record col ([typesig; k] :: rest)
         = Err (CSVRecordVerificationFailure v)
         <-> exists n,
               py_int typesig = Some n /\ (n < 0)%Z
               /\ v = ArrayLengthMismatch n 0
               /\ get_number_of_values_for_type typesig = OK n
               /\ _read_value_rows col n rest = OK ([], rest)
               /\ verify (mkCSVRecord typesig k [])
                  = Err (CSVRecordVerificationFailure v)).
Proof.
  split.
  - intros rows v H. destruct rows as [|r rows]; [discriminate|].
    pose proof (read_one_record_cons_spec col r rows) as Hs.
    rewrite H in Hs. destruct Hs as (k & n & Hr & _).
    exists (nth 0 r ""), k, rows. now rewrite <- Hr.
  - intros typesig k rest v.
    assert (Hneg : forall n,
               py_int typesig = Some n -> (n < 0)%Z ->
               get_number_of_values_for_type typesig = OK n
               /\ _read_value_rows col n rest = OK ([], rest)
               /\ verify (mkCSVRecord typesig k [])
                  = Err (CSVRecordVerificationFailure
                           (ArrayLengthMismatch n 0))).
    { intros n Hi Hn. repeat split.
      - unfold get_number_of_values_for_type.
        now rewrite (py_int_not_scalar _ _ Hi), Hi.
      - rewrite _read_value_rows_eq.
        replace (n >? 0)%Z with false
          by (symmetry; rewrite Z.gtb_ltb; apply Z.ltb_ge; lia).
        reflexivity.
      - unfold verify, __verify_array, __verify_length_sign.
        cbn [type values]. rewrite (py_int_not_scalar _ _ Hi), Hi.
        cbn [bind length].
        replace (Z.of_nat 0 =? n)%Z with false
          by (symmetry; apply Z.eqb_neq; cbn; lia).
        reflexivity. }
    split.
    + intros H.
      pose proof (read_one_record_cons_spec col [typesig; k] rest) as Hs.
      unfold row in *. rewrite H in Hs. cbn [nth] in Hs.
      destruct Hs as (k' & n & _ & _ & Hi & Hn & ->). exists n.
      destruct (Hneg n Hi Hn) as (H1 & H2 & H3). now repeat split.
    + intros (n & Hi & Hn & -> & _).
      destruct (Hneg n Hi Hn) as (H1 & H2 & H3).
      rewrite read_one_record_cons. cbn [nth]. rewrite H1.
      change (_verify_key_row [typesig; k]) with (OK tt). cbn [bind].
      rewrite H2. cbn [bind map]. now rewrite H3.
Qed.

Lemma _get_row_value_format (col : Z) (r : row) (e : exn) :
  (1 <= col)%Z -> _get_row_value col r = Err e ->
  e = CSVFormatException (InvalidValueRow r).
Proof.
  intros Hcol. unfold _get_row_value.
  destruct (Z.ltb_spec (Z.of_nat (length r)) (Z.max 2 (col + 1)))
    as [Hshort|Hlen];
    [cbn [orb]; intros H; now inversion H|].
  cbn [orb].
  destruct (negb _); [intros H; now inversion H|].
  unfold py_getitem.
  replace (col <? 0)%Z with false by (symmetry; apply Z.ltb_ge; lia).
  replace ((0 <=? col) && (col <? Z.of_nat (length r)))%Z with true
    by (symmetry; apply andb_true_iff; split;
        [apply Z.leb_le|apply Z.ltb_lt]; lia).
  destruct (nth_error r (Z.to_nat col)) eqn:Hnth; [discriminate|].
  apply nth_error_None in Hnth. lia.
Qed.

Lemma _gen_values_format (col : Z) (n : nat) (rows : list row) (e : exn) :
  (1 <= col)%Z -> _gen_values col n rows = Err e ->
  exists f, e = CSVFormatException f.
Proof.
  intros Hcol. revert rows.
  induction n as [|n IH]; intros rows; [discriminate|].
  destruct rows as [|r rows]; [discriminate|]. cbn [_gen_values]. unfold bind.
  destruct (_get_row_value col r) eqn:Hr.
  - destruct (_gen_values col n rows) as [[? ?]|] eqn:Hg; [discriminate|].
    intros H. inversion H; subst. now apply (IH rows).
  - intros H. inversion H; subst.
    rewrite (_get_row_value_format _ _ _ Hcol Hr). now eexists.
Qed.

Lemma read_one_record_cons_errors (col : Z) (r : row) (rows : list row)
  (e : exn) :
  (1 <= col)%Z -> read_one_record col (r :: rows) = Err e ->
  e = ValueError \/ (exists f, e = CSVFormatException f)
  \/ (exists v, e = CSVRecordVerificationFailure v).
Proof.
  intros Hcol. rewrite read_one_record_cons. unfold bind at 1.
  unfold _verify_key_row.
  destruct (length r =? 2)%nat;
    [|intros H; inversion H; right; left; now eexists].
  unfold bind at 1.
  destruct (get_number_of_values_for_type (nth 0 r "")) as [number|e'] eqn:Hn.
  2:{ unfold get_number_of_values_for_type in Hn.
      destruct (String.eqb (nth 0 r "") TYPE_SCALAR); [discriminate|].
      destruct (py_int (nth 0 r "")); inversion Hn.
      intros H; inversion H. now left. }
  assert (Hverify : forall c rest e0,
             (_ <- verify c ;; OK (c, rest)) = @Err (CSVRecord * list row) e0 ->
             exists v, e0 = CSVRecordVerificationFailure v).
  { intros c rest e0. unfold bind. destruct (verify c) eqn:Hv; [discriminate|].
    intros H. inversion H; subst. now apply verify_err in Hv. }
  rewrite _read_value_rows_eq. destruct (number >? 0)%Z.
  - unfold bind at 2.
    destruct (_gen_values col (Z.to_nat number) rows) as [[vs rest]|e'] eqn:Hg.
    + unfold _verify_values_number, bind at 1 2.
      destruct (Z.of_nat (length vs) =? number)%Z.
      * intros H. right. right. now apply Hverify in H.
      * intros H. inversion H. right. left. now eexists.
    + cbn [bind]. intros H. inversion H; subst. right. left.
      now apply _gen_values_format in Hg.
  - cbn [bind]. intros H. right. right. now apply Hverify in H.
Qed.

(** The exceptions of [read_one_record] when the column is one the reader
    accepts. *)
Lemma read_one_record_errors (col : Z) (rows : list row) (e : exn) :
  (1 <= col)%Z -> read_one_record col rows = Err e ->
  e = CSVEndOfRowsException \/ e = ValueError
  \/ (exists f, e = CSVFormatException f)
  \/ (exists n, (n < 0)%Z
                /\ e = CSVRecordVerificationFailure (ArrayLengthMismatch n 0)).
Proof.
  intros Hcol H. destruct rows as [|r rows];
    [inversion H; now left|].
  pose proof (read_one_record_cons_spec col r rows) as Hs. rewrite H in Hs.
  destruct (read_one_record_cons_errors _ _ _ _ Hcol H)
    as [->|[[f ->]|[v ->]]].
  - right. now left.
  - right. right. left. now exists f.
  - right. right. right. destruct Hs as (k & n & _ & _ & _ & Hn & ->).
    now exists n.
Qed.

Lemma read_one_record_verified (col : Z) (rows rest : list row)
  (c : CSVRecord) :
  read_one_record col rows = OK (c, rest) -> verify c = OK tt.
Proof.
  destruct rows as [|r rows]; [discriminate|]. intros H.
  pose proof (read_one_record_cons_spec col r rows) as Hs.
  rewrite H in Hs. now destruct Hs as (? & ? & _ & _ & _ & _ & Hv).
Qed.

Lemma read_all_loop_spec (col : Z) (turns : nat) :
  forall rows,
    (1 <= col)%Z ->
    match read_all_loop col turns rows with
    | OK cs => Forall (fun c => verify c = OK tt) cs
    | Err e =>
        e = ValueError \/ (exists f, e = CSVFormatException f)
        \/ (exists n, (n < 0)%Z
                      /\ e = CSVRecordVerificationFailure
                             (ArrayLengthMismatch n 0))
    end.
Proof.
  induction turns as [|turns IH]; intros rows Hcol; cbn [read_all_loop].
  - destruct (read_one_record col rows) as [[c rest]|e] eqn:Hr.
    + constructor; [|constructor].
      now apply read_one_record_verified in Hr.
    + destruct (read_one_record_errors _ _ _ Hcol Hr) as [->|[->|[[f ->]|H]]];
        [constructor|now left|right; left; now eexists|].
      destruct H as (n & Hn & ->). right. right. now exists n.
  - destruct (read_one_record col rows) as [[c rest]|e] eqn:Hr.
    + specialize (IH rest Hcol). unfold bind.
      destruct (read_all_loop col turns rest); [|exact IH].
      constructor; [|exact IH].
      now apply read_one_record_verified in Hr.
    + destruct (read_one_record_errors _ _ _ Hcol Hr) as [->|[->|[[f ->]|H]]];
        [constructor|now left|right; left; now eexists|].
      destruct H as (n & Hn & ->). right. right. now exists n.
Qed.

Lemma map_result_to_pure_record (cs : list CSVRecord) :
  Forall (fun c => verify c = OK tt) cs ->
  exists records, map_result to_pure_record cs = OK records.
Proof.
  induction 1 as [|c cs Hc _ [records IH]]; [now exists []|].
  destruct (verify_ok_to_pure_record c Hc) as [r Hr].
  exists (r :: records). cbn [map_result]. now rewrite Hr, IH.
Qed.

(** X6.  Whatever the rows, the column and the number of rows to skip,
    [read_records_from_csv] raises nothing but a [ValueError] (of a column
    below 1 or of a marker that is no integer), a format exception, or the
    verification failure of a negative marker: no index is out of range, no
    end of rows gets out, and a record that was read always converts. *)
Theorem read_records_from_csv_errors (rows : list row) (col skip : Z)
  (e : exn) :
  read_records_from_csv rows col skip = Err e ->
  e = ValueError \/ (exists f, e = CSVFormatException f)
  \/ (exists n, (n < 0)%Z
                /\ e = CSVRecordVerificationFailure (ArrayLengthMismatch n 0)).
Proof.
  unfold read_records_from_csv, __verify_values_column.
  destruct (Z.ltb_spec col 1) as [Hlow|Hcol];
    [intros H; inversion H; now left|].
  cbn [bind]. unfold read_all_records.
  pose proof (read_all_loop_spec col
                (length (skip_iter_items rows skip))
                (skip_iter_items rows skip) Hcol) as Hs.
  destruct (read_all_loop col _ _) as [cs|e']; cbn [bind].
  - destruct (map_result_to_pure_record cs Hs) as [records ->].
    discriminate.
  - intros H. inversion H; subst. exact Hs.
Qed.

Lemma read_records_from_csv_errors_witness :
  CSVFormatException (ExpectedRows 2 1 ["x"]) = ValueError
  \/ (exists f, CSVFormatException (ExpectedRows 2 1 ["x"])
                = CSVFormatException f)
  \/ (exists n, (n < 0)%Z
                /\ CSVFormatException (ExpectedRows 2 1 ["x"])
                   = CSVRecordVerificationFailure (ArrayLengthMismatch n 0)).
Proof.
  apply (read_records_from_csv_errors [["2"; "A::B"]; [""; "x"]] 1 0).
  reflexivity.
Defined.

Lemma _get_row_value_selected (col : Z) (cells : list string) :
  (1 <= col)%Z -> (col <= Z.of_nat (length cells))%Z ->
  _get_row_value col (VALUE_ROW_TYPE :: cells)
  = OK (nth (Z.to_nat col - 1) cells "").
Proof.
  intros H1 Hlen. unfold _get_row_value. cbn [length].
  replace (Z.of_nat (S (length cells)) <? Z.max 2 (col + 1))%Z with false
    by (symmetry; apply Z.ltb_ge; lia).
  cbn [orb negb String.eqb VALUE_ROW_TYPE]. unfold py_getitem. cbn [length].
  replace (col <? 0)%Z with false by (symmetry; apply Z.ltb_ge; lia).
  replace ((0 <=? col) && (col <? Z.of_nat (S (length cells))))%Z with true
    by (symmetry; apply andb_true_iff; split;
        [apply Z.leb_le|apply Z.ltb_lt]; lia).
  destruct (Z.to_nat col) as [|m] eqn:Hm; [lia|].
  cbn [nth_error]. rewrite Nat.sub_succ, Nat.sub_0_r.
  rewrite (nth_error_nth' cells "") by lia. reflexivity.
Qed.

Lemma _gen_values_selected (col : Z) (cellss : list (list string))
  (rest : list row) :
  (1 <= col)%Z ->
  Forall (fun cells => (col <= Z.of_nat (length cells))%Z) cellss ->
  _gen_values col (length cellss) (map (cons VALUE_ROW_TYPE) cellss ++ rest)
  = OK (map (fun cells => nth (Z.to_nat col - 1) cells "") cellss, rest).
Proof.
  intros Hcol. induction 1 as [|cells cellss Hc _ IH]; [reflexivity|].
  cbn [length map app _gen_values].
  rewrite (_get_row_value_selected col cells Hcol Hc), IH. reflexivity.
Qed.

(** X7.  With a column that every value row reaches, the record read has,
    for each value row, its cell at that column, whatever the cells of the
    other columns. *)
Theorem read_one_record_selects_column (col : Z) (k : string)
  (cellss : list (list string)) (rest : list row) :
  (1 <= col)%Z ->
  Forall (fun cells => (col <= Z.of_nat (length cells))%Z) cellss ->
  read_one_record col
    ([str_of_nat (length cellss); k]
       :: map (cons VALUE_ROW_TYPE) cellss ++ rest)
  = OK (mkCSVRecord (str_of_nat (length cellss)) k
          (map JStr
             (map (fun cells => nth (Z.to_nat col - 1) cells "") cellss)),
        rest).
Proof.
  intros Hcol Hall. rewrite read_one_record_cons. cbn [nth].
  unfold get_number_of_values_for_type.
  rewrite str_of_nat_not_scalar, py_int_str_of_nat.
  change (_verify_key_row [str_of_nat (length cellss); k]) with (OK tt).
  cbn [bind].
  assert (Hrows :
    _read_value_rows col (Z.of_nat (length cellss))
      (map (cons VALUE_ROW_TYPE) cellss ++ rest)
    = OK (map (fun cells => nth (Z.to_nat col - 1) cells "") cellss, rest)).
  { rewrite _read_value_rows_eq.
    destruct cellss as [|cells cellss]; [reflexivity|].
    replace (Z.of_nat (length (cells :: cellss)) >? 0)%Z with true
      by (symmetry; apply Z.gtb_lt; cbn [length]; lia).
    rewrite Nat2Z.id, _gen_values_selected by assumption.
    unfold bind, _verify_values_number.
    now rewrite length_map, Z.eqb_refl. }
  rewrite Hrows. cbn [bind].
  rewrite (verify_counted _ _ (Z.of_nat (length cellss))); [reflexivity| |].
  - unfold get_number_of_values_for_type.
    now rewrite str_of_nat_not_scalar, py_int_str_of_nat.
  - now rewrite length_map.
Qed.

Lemma read_one_record_selects_column_witness :
  read_one_record 2 [["2"; "A"]; [""; "x"; "X"]; [""; "y"; "Y"; "Z"]]
  = OK (mkCSVRecord "2" "A" [JStr "X"; JStr "Y"], []).
Proof.
  apply (read_one_record_selects_column 2 "A" [["x"; "X"]; ["y"; "Y"; "Z"]]
           []); [lia|].
  repeat constructor; cbn; lia.
Defined.

Lemma _gen_values_more (col : Z) (n : nat) (rows rest more : list row)
  (vs : list string) :
  _gen_values col n rows = OK (vs, rest) -> length vs = n ->
  _gen_values col n (rows ++ more) = OK (vs, rest ++ more).
Proof.
  revert rows vs. induction n as [|n IH]; intros rows vs.
  - intros H _. inversion H. reflexivity.
  - destruct rows as [|r rows]; [intros H Hl; inversion H; subst; discriminate|].
    cbn [app _gen_values]. unfold bind.
    destruct (_get_row_value col r); [|discriminate].
    destruct (_gen_values col n rows) as [[vs' rest']|] eqn:Hg;
      [|discriminate].
    intros H Hl. inversion H; subst. cbn [length] in Hl.
    rewrite (IH rows vs' Hg) by lia. reflexivity.
Qed.

Lemma read_one_record_more (col : Z) (rows rest more : list row)
  (c : CSVRecord) :
  read_one_record col rows = OK (c, rest) ->
  read_one_record col (rows ++ more) = OK (c, rest ++ more).
Proof.
  destruct rows as [|r rows]; [discriminate|]. cbn [app].
  rewrite !read_one_record_cons. unfold bind at 1 5.
  destruct (_verify_key_row r); [|discriminate].
  unfold bind at 1 4.
  destruct (get_number_of_values_for_type (nth 0 r "")) as [number|];
    [|discriminate].
  rewrite !_read_value_rows_eq. destruct (number >? 0)%Z.
  - unfold bind at 2.
    destruct (_gen_values col (Z.to_nat number) rows) as [[vs rest']|] eqn:Hg;
      [|discriminate].
    unfold _verify_values_number at 1. unfold bind at 1 2.
    destruct (Z.eqb_spec (Z.of_nat (length vs)) number) as [Hl|];
      [|discriminate].
    rewrite (_gen_values_more _ _ _ _ more _ Hg) by lia.
    unfold _verify_values_number, bind. rewrite Hl, Z.eqb_refl.
    destruct (verify _); [|discriminate].
    intros H. inversion H. reflexivity.
  - cbn [bind]. destruct (verify _); [|discriminate].
    intros H. inversion H. reflexivity.
Qed.

(** X8.  Records delimit themselves: when the records of some rows are read
    without an error, the records of those rows followed by more rows are
    the same records followed by the records of the rows added, or the
    exception the rows added raise. *)
Theorem read_all_records_app (col : Z) (rows more : list row)
  (records : list CSVRecord) :
  read_all_records col rows = OK records ->
  read_all_records col (rows ++ more)
  = (records' <- read_all_records col more ;; OK (records ++ records')).
Proof.
  remember (length rows) as n eqn:Hn.
  assert (Hle : length rows <= n) by lia. clear Hn.
  revert rows records Hle.
  induction n as [|n IH]; intros rows records Hle.
  - destruct rows; [|cbn in Hle; lia]. intros H. inversion H. cbn [app].
    unfold bind. destruct (read_all_records col more); reflexivity.
  - rewrite read_all_records_eq.
    destruct (read_one_record col rows) as [[c rest]|e] eqn:Hr.
    + unfold bind at 1.
      destruct (read_all_records col rest) as [cs|] eqn:Hrest;
        [|discriminate].
      intros H. inversion H; subst.
      rewrite (read_all_records_eq col (rows ++ more)).
      rewrite (read_one_record_more _ _ _ more _ Hr).
      apply read_one_record_shorter in Hr.
      rewrite (IH rest cs) by (try assumption; lia).
      unfold bind. destruct (read_all_records col more); reflexivity.
    + destruct e; try discriminate.
      apply read_one_record_end in Hr. subst rows.
      intros H. inversion H. cbn [app].
      unfold bind. destruct (read_all_records col more); reflexivity.
Qed.

Lemma read_all_records_app_witness :
  read_all_records 1 ([["-"; "A"]; [""; "x"]] ++ [["0"; "B"]])
  = (records' <- read_all_records 1 [["0"; "B"]] ;;
     OK ([mkCSVRecord "-" "A" [JStr "x"]] ++ records')).
Proof.
  apply (read_all_records_app 1 [["-"; "A"]; [""; "x"]] [["0"; "B"]]).
  reflexivity.
Defined.

Lemma read_all_loop_Forall (P : CSVRecord -> Prop) (col : Z) :
  (forall rows c rest, read_one_record col rows = OK (c, rest) -> P c) ->
  forall turns rows cs,
    read_all_loop col turns rows = OK cs -> Forall P cs.
Proof.
  intros HP. induction turns as [|turns IH]; intros rows cs;
    cbn [read_all_loop].
  - destruct (read_one_record col rows) as [[c rest]|e] eqn:Hr.
    + intros H. inversion H. constructor; [now apply HP in Hr|constructor].
    + destruct e; try discriminate. intros H. inversion H. constructor.
  - destruct (read_one_record col rows) as [[c rest]|e] eqn:Hr.
    + unfold bind.
      destruct (read_all_loop col turns rest) as [cs'|] eqn:Hl;
        [|discriminate].
      intros H. inversion H.
      constructor; [now apply HP in Hr|now apply (IH rest)].
    + destruct e; try discriminate. intros H. inversion H. constructor.
Qed.

Lemma read_one_record_strings (col : Z) (rows rest : list row)
  (c : CSVRecord) :
  read_one_record col rows = OK (c, rest) ->
  verify c = OK tt /\ exists vs, values c = map JStr vs.
Proof.
  destruct rows as [|r rows]; [discriminate|]. intros H.
  pose proof (read_one_record_cons_spec col r rows) as Hs.
  rewrite H in Hs. destruct Hs as (? & vs & _ & _ & _ & Hv & Hok).
  split; [exact Hok|now exists vs].
Qed.

Lemma forallb_is_str_map (vs : list string) :
  forallb is_str (map JStr vs) = true.
Proof. induction vs as [|v vs IH]; [reflexivity|exact IH]. Qed.

Lemma to_pure_record_strings (c : CSVRecord) (r : PureRecord) :
  verify c = OK tt -> (exists vs, values c = map JStr vs) ->
  to_pure_record c = OK r ->
  is_Sequence (value r) = true /\ string_leaves (value r) = true
  /\ separable (name_parts r) = true.
Proof.
  intros Hv [vs Hvs]. unfold to_pure_record, verify, __verify_scalar in *.
  rewrite Hvs in *.
  destruct (String.eqb (type c) TYPE_SCALAR).
  - destruct vs as [|v [|v' vs]]; try discriminate.
    cbn. intros H. inversion H. cbn.
    repeat split. apply separable_split_both.
  - cbn [bind]. intros H. inversion H. cbn [value name_parts].
    repeat split; [apply forallb_is_str_map|apply separable_split_both].
Qed.

(** X9.  The records read from rows, with any column and any number of rows
    skipped, are written without an error, as rows of string cells, and
    reading those rows from column 1 gives the same records. *)
Theorem records_read_are_written_and_read_again (rows : list row)
  (col skip : Z) (records : list PureRecord) :
  read_records_from_csv rows col skip = OK records ->
  exists w,
    write_records_to_csv [] records = (w, OK tt)
    /\ rows_text w = Some (flat_map record_text_rows records)
    /\ read_records_from_csv (flat_map record_text_rows records) 1 0
       = OK records.
Proof.
  unfold read_records_from_csv at 1. unfold bind.
  destruct (__verify_values_column col); [|discriminate].
  destruct (read_all_records col (skip_iter_items rows skip)) as [cs|] eqn:Hr;
    [|discriminate].
  intros Hm.
  assert (Hall : Forall (fun r => is_Sequence (value r) = true
                                  /\ string_leaves (value r) = true
                                  /\ separable (name_parts r) = true)
                   records).
  { apply (read_all_loop_Forall
             (fun c => verify c = OK tt /\ exists vs, values c = map JStr vs))
      in Hr; [|intros ? ? ?; apply read_one_record_strings].
    apply Forall_forall. intros r Hin.
    destruct (map_result_In _ _ _ _ Hm Hin) as (c & Hc & Hp).
    rewrite Forall_forall in Hr. destruct (Hr c Hc) as [Hv Hvs].
    now apply (to_pure_record_strings c r). }
  destruct (write_records_written records Hall [] [] eq_refl)
    as (w & Hw & Ht).
  exists w. repeat split; [exact Hw|exact Ht|].
  now apply read_records_written.
Qed.

Lemma records_read_are_written_and_read_again_witness :
  exists w,
    write_records_to_csv []
      [mkPureRecord ["A"; "B"] (JArr [JStr "X"; JStr "Y"])] = (w, OK tt)
    /\ rows_text w
       = Some (flat_map record_text_rows
                 [mkPureRecord ["A"; "B"] (JArr [JStr "X"; JStr "Y"])])
    /\ read_records_from_csv
         (flat_map record_text_rows
            [mkPureRecord ["A"; "B"] (JArr [JStr "X"; JStr "Y"])]) 1 0
       = OK [mkPureRecord ["A"; "B"] (JArr [JStr "X"; JStr "Y"])].
Proof.
  apply (records_read_are_written_and_read_again
           [["junk"]; [" 2 "; "A::B"]; [""; "x"; "X"]; [""; "y"; "Y"]] 2 1).
  reflexivity.
Defined.

(** ** More on the builder *)

Lemma dict_get_set_same (d : list (string * json)) (k : string) (v : json) :
  dict_get (dict_set d k v) k = Some v.
Proof.
  induction d as [|[k' v'] d IH]; cbn [dict_set dict_get].
  - now rewrite String.eqb_refl.
  - destruct (String.eqb k' k) eqn:Hk; cbn [dict_get]; rewrite Hk;
      [reflexivity|exact IH].
Qed.

Lemma dict_set_set (d : list (string * json)) (k : string) (v v' : json) :
  dict_set (dict_set d k v) k v' = dict_set d k v'.
Proof.
  induction d as [|[k0 v0] d IH]; cbn [dict_set].
  - now rewrite String.eqb_refl.
  - destruct (String.eqb k0 k) eqn:Hk; cbn [dict_set]; rewrite Hk;
      [reflexivity|now rewrite IH].
Qed.

Lemma dict_set_keys (d : list (string * json)) (k : string) (v : json) :
  map fst (dict_set d k v)
  = map fst d ++ (if has_key k d then [] else [k]).
Proof.
  unfold has_key. induction d as [|[k0 v0] d IH]; [reflexivity|].
  cbn [dict_set existsb fst map].
  destruct (String.eqb k0 k); cbn [orb map fst app].
  - now rewrite app_nil_r.
  - now rewrite IH.
Qed.

Lemma include_at_twice (key_seq : list string) (last : string)
  (v v' : json) :
  forall d d',
    include_at d key_seq last v = OK d' ->
    include_at d' key_seq last v' = include_at d key_seq last v'.
Proof.
  induction key_seq as [|k ks IH]; intros d d'; cbn [include_at].
  - intros H. inversion H. now rewrite dict_set_set.
  - unfold bind. destruct (dict_get d k) as [[| | | | | |target]|];
      try discriminate.
    + destruct (include_at target ks last v) as [t|] eqn:Ht; [|discriminate].
      intros H. inversion H. rewrite dict_get_set_same.
      rewrite (IH _ _ Ht).
      destruct (include_at target ks last v'); [|reflexivity].
      now rewrite dict_set_set.
    + destruct (include_at [] ks last v) as [t|] eqn:Ht; [|discriminate].
      intros H. inversion H. rewrite dict_get_set_same.
      rewrite (IH _ _ Ht).
      destruct (include_at [] ks last v'); [|reflexivity].
      now rewrite dict_set_set.
Qed.

(** X10.  The last record of a name wins: including a record in a dict
    where a record of the same name was included gives what including it
    alone gives, so that the first value is gone and no key moves. *)
Theorem include_record_last_wins (d d' : list (string * json))
  (first second : PureRecord) :
  name_parts first = name_parts second ->
  include_record d first = OK d' ->
  include_record d' second = include_record d second.
Proof.
  unfold include_record. intros <-.
  destruct (py_getitem (name_parts first) (-1)) as [last|]; [|discriminate].
  cbn [bind]. apply include_at_twice.
Qed.

Lemma include_record_last_wins_witness :
  include_record [("C", JStr "z"); ("A", JObj [("B", JStr "x")])]
    (mkPureRecord ["A"; "B"] (JStr "y"))
  = include_record [("C", JStr "z")] (mkPureRecord ["A"; "B"] (JStr "y")).
Proof.
  apply (include_record_last_wins [("C", JStr "z")]
           [("C", JStr "z"); ("A", JObj [("B", JStr "x")])]
           (mkPureRecord ["A"; "B"] (JStr "x"))
           (mkPureRecord ["A"; "B"] (JStr "y"))); reflexivity.
Defined.

Lemma dict_get_set_other (d : list (string * json)) (k k' : string)
  (v : json) :
  String.eqb k k' = false -> dict_get (dict_set d k v) k' = dict_get d k'.
Proof.
  intros Hne. induction d as [|[k0 v0] d IH]; cbn [dict_set dict_get].
  - now rewrite Hne.
  - destruct (String.eqb k0 k) eqn:Hk; cbn [dict_get].
    + apply String.eqb_eq in Hk. subst k0. now rewrite Hne.
    + now rewrite IH.
Qed.

Lemma include_at_get_at (key_seq : list string) (last : string) (v : json) :
  forall d d',
    include_at d key_seq last v = OK d' -> get_at d' key_seq last = Some v.
Proof.
  induction key_seq as [|k ks IH]; intros d d'; cbn [include_at get_at].
  - intros H. inversion H. apply dict_get_set_same.
  - unfold bind. destruct (dict_get d k) as [[| | | | | |target]|];
      try discriminate.
    + destruct (include_at target ks last v) as [t|] eqn:Ht; [|discriminate].
      intros H. inversion H. rewrite dict_get_set_same. now apply (IH target).
    + destruct (include_at [] ks last v) as [t|] eqn:Ht; [|discriminate].
      intros H. inversion H. rewrite dict_get_set_same. now apply (IH []).
Qed.

Lemma include_record_name (d d' : list (string * json)) (r : PureRecord) :
  include_record d r = OK d' ->
  exists l x,
    name_parts r = l ++ [x] /\ include_at d l x (value r) = OK d'.
Proof.
  destruct r as [parts v]. destruct parts as [|p parts]; [discriminate|].
  destruct (@exists_last _ (p :: parts)) as (l & x & Heq); [discriminate|].
  rewrite Heq, include_record_snoc. intros H. now exists l, x.
Qed.

(** X11.  What a record was included under is found again: after a record
    is included, walking the dicts along its name but the last part and
    looking up the last part gives the value of the record. *)
Theorem include_record_then_get (d d' : list (string * json))
  (record : PureRecord) :
  include_record d record = OK d' ->
  exists key_seq last,
    name_parts record = key_seq ++ [last]
    /\ get_at d' key_seq last = Some (value record).
Proof.
  intros H. destruct (include_record_name _ _ _ H) as (l & x & Hn & Hi).
  exists l, x. split; [exact Hn|]. now apply include_at_get_at in Hi.
Qed.

Lemma include_record_then_get_witness :
  exists key_seq last,
    name_parts (mkPureRecord ["A"; "B"] (JStr "x")) = key_seq ++ [last]
    /\ get_at [("C", JStr "z"); ("A", JObj [("B", JStr "x")])] key_seq last
       = Some (value (mkPureRecord ["A"; "B"] (JStr "x"))).
Proof.
  apply (include_record_then_get [("C", JStr "z")]). reflexivity.
Defined.

Lemma include_at_through_leaf (key_seq : list string) (last : string)
  (v : json) (more : list string) (last' : string) (v' : json) :
  is_Mapping v = false ->
  forall d d',
    include_at d key_seq last v = OK d' ->
    include_at d' (key_seq ++ last :: more) last' v' = Err TypeError.
Proof.
  intros Hv. induction key_seq as [|k ks IH]; intros d d';
    cbn [include_at app].
  - intros H. inversion H. rewrite dict_get_set_same.
    destruct v; try reflexivity. discriminate.
  - unfold bind. destruct (dict_get d k) as [[| | | | | |target]|];
      try discriminate.
    + destruct (include_at target ks last v) as [t|] eqn:Ht; [|discriminate].
      intros H. inversion H. rewrite dict_get_set_same.
      now rewrite (IH _ _ Ht).
    + destruct (include_at [] ks last v) as [t|] eqn:Ht; [|discriminate].
      intros H. inversion H. rewrite dict_get_set_same.
      now rewrite (IH _ _ Ht).
Qed.

(** X12.  A name that goes on past the name of an included string or list
    cannot be included: the walk meets the string or list where it needs a
    dict, which is a [TypeError]. *)
Theorem include_record_past_a_leaf (d d' : list (string * json))
  (first second : PureRecord) (more : list string) :
  include_record d first = OK d' ->
  is_Mapping (value first) = false ->
  more <> [] -> name_parts second = name_parts first ++ more ->
  include_record d' second = Err TypeError.
Proof.
  intros H Hv Hmore Hname.
  destruct (include_record_name _ _ _ H) as (l & x & Hn & Hi).
  destruct (exists_last Hmore) as (m & y & ->).
  destruct second as [parts v']. cbn [name_parts] in Hname. subst parts.
  rewrite Hn.
  replace ((l ++ [x]) ++ m ++ [y]) with ((l ++ x :: m) ++ [y])
    by (now rewrite <- !app_assoc).
  rewrite include_record_snoc.
  now apply (include_at_through_leaf l x (value first)) with d.
Qed.

Lemma include_record_past_a_leaf_witness :
  include_record [("A", JStr "x")] (mkPureRecord ["A"; "B"] (JStr "y"))
  = Err TypeError.
Proof.
  apply (include_record_past_a_leaf [] [("A", JStr "x")]
           (mkPureRecord ["A"] (JStr "x"))
           (mkPureRecord ["A"; "B"] (JStr "y")) ["B"]);
    [reflexivity|reflexivity|discriminate|reflexivity].
Defined.

Lemma include_at_top (key_seq : list string) (last : string) (v : json)
  (d d' : list (string * json)) :
  include_at d key_seq last v = OK d' ->
  exists v', d' = dict_set d (hd last key_seq) v'.
Proof.
  destruct key_seq as [|k ks]; cbn [include_at hd].
  - intros H. inversion H. now exists v.
  - unfold bind. destruct (dict_get d k) as [[| | | | | |target]|];
      try discriminate.
    + destruct (include_at target ks last v); [|discriminate].
      intros H. inversion H. now eexists.
    + destruct (include_at [] ks last v); [|discriminate].
      intros H. inversion H. now eexists.
Qed.

(** X13.  Including a record touches the one member of the dict under the
    first part of its name: the keys keep their order, that part goes last
    when it is a new key, and what is under any other key stays. *)
Theorem include_record_keeps_other_members (d d' : list (string * json))
  (record : PureRecord) :
  include_record d record = OK d' ->
  exists first,
    hd_error (name_parts record) = Some first
    /\ map fst d' = map fst d ++ (if has_key first d then [] else [first])
    /\ forall k, String.eqb first k = false -> dict_get d' k = dict_get d k.
Proof.
  intros H. destruct (include_record_name _ _ _ H) as (l & x & Hn & Hi).
  destruct (include_at_top _ _ _ _ _ Hi) as [v' ->].
  exists (hd x l). rewrite Hn. repeat split.
  - destruct l; reflexivity.
  - apply dict_set_keys.
  - intros k Hk. now apply dict_get_set_other.
Qed.

Lemma include_record_keeps_other_members_witness :
  exists first,
    hd_error (name_parts (mkPureRecord ["A"; "B"] (JStr "x"))) = Some first
    /\ map fst [("C", JStr "z"); ("A", JObj [("B", JStr "x")])]
       = map fst [("C", JStr "z")]
         ++ (if has_key first [("C", JStr "z")] then [] else [first])
    /\ forall k,
         String.eqb first k = false ->
         dict_get [("C", JStr "z"); ("A", JObj [("B", JStr "x")])] k
         = dict_get [("C", JStr "z")] k.
Proof.
  apply (include_record_keeps_other_members [("C", JStr "z")]). reflexivity.
Defined.

(** ** The options and the conversions *)

(** X14.  With the column and the number of rows to skip that the option
    types accept, the column is at least 1 and the number at least 0, both
    the integers their texts spell, and [read_records_from_csv] goes past
    its check of the column: it reads the records of the rows that follow
    the skipped ones and converts them. *)
Theorem option_types_fit_the_reader (column_text skip_text : string)
  (col skip : Z) (rows : list row) :
  column_opt_type column_text = OK col ->
  skip_opt_type skip_text = OK skip ->
  py_int column_text = Some col /\ (1 <= col)%Z
  /\ py_int skip_text = Some skip /\ (0 <= skip)%Z
  /\ read_records_from_csv rows col skip
     = (records <- read_all_records col (skipn (Z.to_nat skip) rows) ;;
        map_result to_pure_record records).
Proof.
  unfold column_opt_type, skip_opt_type.
  destruct (py_int column_text) as [c|]; [|discriminate].
  destruct (Z.ltb_spec c 1) as [|Hc]; [discriminate|].
  destruct (py_int skip_text) as [s|]; [|discriminate].
  destruct (Z.ltb_spec s 0) as [|Hs]; [discriminate|].
  intros H1 H2. inversion H1. inversion H2. subst.
  repeat split; try assumption.
  unfold read_records_from_csv, __verify_values_column, skip_iter_items.
  replace (col <? 1)%Z with false by (symmetry; apply Z.ltb_ge; lia).
  now rewrite skip_rows_skipn.
Qed.

Lemma option_types_fit_the_reader_witness :
  py_int " 2 " = Some 2%Z /\ (1 <= 2)%Z
  /\ py_int "+1" = Some 1%Z /\ (0 <= 1)%Z
  /\ read_records_from_csv [["junk"]; ["0"; "A"]] 2 1
     = (records <- read_all_records 2 (skipn (Z.to_nat 1) [["junk"]; ["0"; "A"]]) ;;
        map_result to_pure_record records).
Proof.
  apply (option_types_fit_the_reader " 2 " "+1" 2 1 [["junk"]; ["0"; "A"]]);
    reflexivity.
Defined.

Lemma collect_shape (doc : json) :
  forall members, doc = JObj members ->
  forall parent,
    Forall (fun r => is_Sequence (value r) = true
                     /\ exists q, q <> [] /\ name_parts r = parent ++ q)
      (collect_records_from_json members parent).
Proof.
  induction doc as [| | | | | |ms IH] using json_induction;
    intros members Heq; try discriminate.
  inversion Heq; subst members. clear Heq.
  induction ms as [|[k v] ms IHms]; intros parent; [constructor|].
  inversion IH as [|kv l Hv Hms]; subst. cbn [snd] in Hv.
  rewrite collect_cons. apply Forall_app. split; [|now apply IHms].
  destruct v as [| | | |s|items|m]; cbn [is_Sequence]; try constructor.
  - split; [reflexivity|]. exists [k]. split; [discriminate|reflexivity].
  - constructor.
  - split; [reflexivity|]. exists [k]. split; [discriminate|reflexivity].
  - constructor.
  - eapply Forall_impl; [|apply (Hv m eq_refl)].
    intros r (Hs & q & Hq & Hn). split; [exact Hs|].
    exists (k :: q). split; [discriminate|].
    rewrite Hn. unfold add_part. now rewrite <- app_assoc.
Qed.

Lemma write_to_csv_appends (c : CSVRecord) (w : list out_row) :
  write_to_csv c w
  = w ++ [JStr (type c); JStr (key c)]
         :: map (fun v => [JStr VALUE_ROW_TYPE; v]) (values c).
Proof. unfold write_to_csv. now rewrite <- app_assoc. Qed.

Lemma write_records_sequences (records : list PureRecord) :
  Forall (fun r => is_Sequence (value r) = true) records ->
  forall w,
    exists added,
      write_records_to_csv w records = (w ++ added, OK tt)
      /\ length added
         = length records
           + length (flat_map (fun r => match value r with
                                       | JArr items => items
                                       | v => [v]
                                       end) records).
Proof.
  induction 1 as [|r records Hr _ IH]; intros w.
  - exists []. split; [now rewrite app_nil_r|reflexivity].
  - cbn [write_records_to_csv]. unfold from_pure_record.
    destruct r as [parts v]. cbn [value name_parts] in *.
    destruct v as [| | | |s|items|]; try discriminate.
    + destruct (IH (write_to_csv
                      (mkCSVRecord TYPE_SCALAR (to_str parts) [JStr s]) w))
        as (added & -> & Hl).
      rewrite write_to_csv_appends, <- app_assoc. eexists.
      split; [reflexivity|]. cbn [values map app length flat_map value].
      rewrite Hl. lia.
    + destruct (IH (write_to_csv
                      (mkCSVRecord (str_of_nat (length items)) (to_str parts)
                         items) w))
        as (added & -> & Hl).
      rewrite write_to_csv_appends, <- app_assoc. eexists.
      split; [reflexivity|]. cbn [values app length flat_map value].
      rewrite !length_app, length_map, Hl. lia.
Qed.

(** X15.  Every record of the flattener has a string or a list for value,
    never a mapping, and a name that is the parent name followed by at
    least one part; so writing the records of any object never raises: it
    ends with the rows that were in the writer followed by one row for
    each record and one for each of its values. *)
Theorem flattened_records_are_written (json_dict : list (string * json))
  (parent : RecordNameParts) (w : list out_row) :
  Forall (fun r => is_Sequence (value r) = true
                   /\ exists q, q <> [] /\ name_parts r = parent ++ q)
    (collect_records_from_json json_dict parent)
  /\ exists added,
       write_records_to_csv w (collect_records_from_json json_dict parent)
       = (w ++ added, OK tt)
       /\ length added
          = length (collect_records_from_json json_dict parent)
            + length (flat_map (fun r => match value r with
                                        | JArr items => items
                                        | v => [v]
                                        end)
                        (collect_records_from_json json_dict parent)).
Proof.
  pose proof (collect_shape (JObj json_dict) json_dict eq_refl parent) as Hs.
  split; [exact Hs|].
  apply write_records_sequences.
  eapply Forall_impl; [|exact Hs]. now intros r [H _].
Qed.

(** X16.  Writing stops at the first record whose value is neither a string
    nor a list, with the exception of an unexpected value: the rows of the
    records before it are written after the rows that were there, and no
    row of it or of a record after it is. *)
Theorem write_records_stops_at_unexpected_value
  (before after : list PureRecord) (bad : PureRecord) (w : list out_row) :
  Forall (fun r => is_Sequence (value r) = true) before ->
  is_Sequence (value bad) = false ->
  exists added,
    write_records_to_csv w before = (w ++ added, OK tt)
    /\ write_records_to_csv w (before ++ bad :: after)
       = (w ++ added, Err UnexpectedRecordValueException).
Proof.
  intros Hall Hbad. revert w.
  induction Hall as [|r before Hr _ IH]; intros w.
  - exists []. rewrite app_nil_r. split; [reflexivity|].
    cbn [app write_records_to_csv]. unfold from_pure_record.
    destruct (value bad); try reflexivity; discriminate.
  - cbn [app write_records_to_csv]. unfold from_pure_record.
    destruct r as [parts v]. cbn [value name_parts] in *.
    destruct v as [| | | |s|items|]; try discriminate.
    + destruct (IH (write_to_csv
                      (mkCSVRecord TYPE_SCALAR (to_str parts) [JStr s]) w))
        as (added & -> & ->).
      rewrite write_to_csv_appends, <- !app_assoc. eexists.
      split; reflexivity.
    + destruct (IH (write_to_csv
                      (mkCSVRecord (str_of_nat (length items)) (to_str parts)
                         items) w))
        as (added & -> & ->).
      rewrite write_to_csv_appends, <- !app_assoc. eexists.
      split; reflexivity.
Qed.

Lemma write_records_stops_at_unexpected_value_witness :
  exists added,
    write_records_to_csv [] [mkPureRecord ["A"] (JStr "x")]
    = ([] ++ added, OK tt)
    /\ write_records_to_csv []
         ([mkPureRecord ["A"] (JStr "x")]
            ++ mkPureRecord ["B"] (JInt 3) :: [mkPureRecord ["C"] (JStr "y")])
       = ([] ++ added, Err UnexpectedRecordValueException).
Proof.
  apply (write_records_stops_at_unexpected_value
           [mkPureRecord ["A"] (JStr "x")] [mkPureRecord ["C"] (JStr "y")]
           (mkPureRecord ["B"] (JInt 3)) []);
    [repeat constructor|reflexivity].
Defined.

(** X17.  Skipping at least as many rows as there are leaves no row to
    read: with a column of at least 1, the records are none, with no
    exception. *)
Theorem skipping_all_rows_gives_no_record (rows : list row) (col skip : Z) :
  (1 <= col)%Z -> (Z.of_nat (length rows) <= skip)%Z ->
  read_records_from_csv rows col skip = OK [].
Proof.
  intros Hcol Hskip.
  unfold read_records_from_csv, __verify_values_column, skip_iter_items.
  replace (col <? 1)%Z with false by (symmetry; apply Z.ltb_ge; lia).
  rewrite skip_rows_skipn, skipn_all2 by lia. reflexivity.
Qed.

Lemma skipping_all_rows_gives_no_record_witness :
  read_records_from_csv [["junk"]; ["more"; "junk"; "here"]] 1 5 = OK [].
Proof.
  apply (skipping_all_rows_gives_no_record
           [["junk"]; ["more"; "junk"; "here"]] 1 5); cbn; lia.
Defined.

Lemma has_key_dict_set_other (d : list (string * json)) (k k' : string)
  (v : json) :
  String.eqb k k' = false -> has_key k' (dict_set d k v) = has_key k' d.
Proof.
  intros Hne. unfold has_key.
  induction d as [|[k0 v0] d IH]; cbn [dict_set existsb fst].
  - now rewrite Hne.
  - destruct (String.eqb k0 k) eqn:Hk; cbn [existsb fst];
      [reflexivity|now rewrite IH].
Qed.

Lemma unique_keys_dict_set (d : list (string * json)) (k : string)
  (v : json) :
  unique_keys (JObj d) = true -> unique_keys v = true ->
  unique_keys (JObj (dict_set d k v)) = true.
Proof.
  intros Hd Hv. induction d as [|[k0 v0] d IH]; cbn [dict_set].
  - rewrite unique_keys_cons. now rewrite Hv.
  - rewrite unique_keys_cons in Hd. split_andb.
    destruct (String.eqb k0 k) eqn:Hk; rewrite unique_keys_cons.
    + apply andb_true_iff. split; [|assumption].
      apply andb_true_iff. split; [now apply negb_true_iff|assumption].
    + rewrite has_key_dict_set_other by (now rewrite String.eqb_sym).
      apply andb_true_iff. split; [|now apply IH].
      apply andb_true_iff. split; [now apply negb_true_iff|assumption].
Qed.

Lemma unique_keys_dict_get (d : list (string * json)) (k : string)
  (v : json) :
  unique_keys (JObj d) = true -> dict_get d k = Some v ->
  unique_keys v = true.
Proof.
  induction d as [|[k0 v0] d IH]; [discriminate|].
  rewrite unique_keys_cons. intros Hd. split_andb. cbn [dict_get].
  destruct (String.eqb k0 k);
    [intros Hg; injection Hg as <-; assumption|now apply IH].
Qed.

Lemma include_at_unique_keys (key_seq : list string) (last : string)
  (v : json) :
  unique_keys v = true ->
  forall d d',
    unique_keys (JObj d) = true -> include_at d key_seq last v = OK d' ->
    unique_keys (JObj d') = true.
Proof.
  intros Hv. induction key_seq as [|k ks IH]; intros d d' Hd;
    cbn [include_at].
  - intros H. inversion H. now apply unique_keys_dict_set.
  - unfold bind. destruct (dict_get d k) as [[| | | | | |target]|] eqn:Hg;
      try discriminate.
    + destruct (include_at target ks last v) as [t|] eqn:Ht; [|discriminate].
      intros H. inversion H. apply unique_keys_dict_set; [assumption|].
      apply (IH target t); [|assumption].
      now apply (unique_keys_dict_get d k).
    + destruct (include_at [] ks last v) as [t|] eqn:Ht; [|discriminate].
      intros H. inversion H. apply unique_keys_dict_set; [assumption|].
      now apply (IH [] t).
Qed.

(** X18.  The builder keeps every dict a dict: starting from the empty dict
    and including records of strings and lists, in any number and under any
    names, no object of what is built has a key twice. *)
Theorem write_records_to_json_unique_keys (records : list PureRecord)
  (out_dict : list (string * json)) :
  Forall (fun r => is_Mapping (value r) = false) records ->
  write_records_to_json records = OK out_dict ->
  unique_keys (JObj out_dict) = true.
Proof.
  unfold write_records_to_json. intros Hall.
  assert (Hgen : forall d,
             unique_keys (JObj d) = true ->
             include_records d records = OK out_dict ->
             unique_keys (JObj out_dict) = true).
  { induction Hall as [|r records Hr _ IH]; intros d Hd;
      cbn [include_records].
    - intros H. inversion H. now subst.
    - unfold bind. destruct (include_record d r) as [d1|] eqn:Hi;
        [|discriminate].
      apply IH. destruct (include_record_name _ _ _ Hi) as (l & x & _ & Hat).
      apply (include_at_unique_keys l x (value r)) with d; try assumption.
      destruct (value r); try reflexivity. discriminate. }
  now apply (Hgen []).
Qed.

Lemma write_records_to_json_unique_keys_witness :
  unique_keys
    (JObj [("A", JObj [("B", JStr "y"); ("C", JArr [])])]) = true.
Proof.
  apply (write_records_to_json_unique_keys
           [mkPureRecord ["A"; "B"] (JStr "x");
            mkPureRecord ["A"; "C"] (JArr []);
            mkPureRecord ["A"; "B"] (JStr "y")]);
    [repeat constructor|reflexivity].
Defined.

(** X19.  [verify] is what the reader asks of a record: for a record whose
    values are strings, its key row followed by one row for each value is
    read back as the record, marker as written, if and only if the record
    passes [verify]. *)
Theorem verified_records_are_those_read_back (c : CSVRecord)
  (vs : list string) (rest : list row) :
  values c = map JStr vs ->
  (read_one_record 1 (record_rows (type c) (key c) vs ++ rest) = OK (c, rest)
   <-> verify c = OK tt).
Proof.
  intros Hvs. split; [apply read_one_record_verified|].
  destruct c as [typesig k values0]. cbn [type key values] in *. subst values0.
  intros Hv. unfold record_rows. cbn [app].
  rewrite read_one_record_cons. cbn [nth].
  change (_verify_key_row [typesig; k]) with (OK tt). cbn [bind].
  assert (Hn : get_number_of_values_for_type typesig
               = OK (Z.of_nat (length vs))).
  { revert Hv.
    unfold verify, __verify_scalar, __verify_array, __verify_length_sign,
      get_number_of_values_for_type.
    cbn [type values]. rewrite length_map.
    destruct (String.eqb typesig TYPE_SCALAR).
    - destruct (Nat.eqb_spec (length vs) 1) as [->|]; [reflexivity|discriminate].
    - destruct (py_int typesig) as [n|]; [|discriminate]. cbn [bind].
      destruct (Z.eqb_spec (Z.of_nat (length vs)) n) as [->|];
        [reflexivity|discriminate]. }
  rewrite Hn. cbn [bind]. rewrite _read_value_rows_written. cbn [bind].
  now rewrite Hv.
Qed.

Lemma verified_records_are_those_read_back_witness :
  read_one_record 1
    (record_rows (type (mkCSVRecord " 2 " "A" [JStr "x"; JStr "y"]))
       (key (mkCSVRecord " 2 " "A" [JStr "x"; JStr "y"])) ["x"; "y"]
       ++ [["0"; "B"]])
  = OK (mkCSVRecord " 2 " "A" [JStr "x"; JStr "y"], [["0"; "B"]])
  <-> verify (mkCSVRecord " 2 " "A" [JStr "x"; JStr "y"]) = OK tt.
Proof.
  apply (verified_records_are_those_read_back
           (mkCSVRecord " 2 " "A" [JStr "x"; JStr "y"]) ["x"; "y"]
           [["0"; "B"]]).
  reflexivity.
Defined.

Lemma include_records_errors (records : list PureRecord) :
  Forall (fun r => name_parts r <> []) records ->
  forall d e, include_records d records = Err e -> e = TypeError.
Proof.
  induction 1 as [|r records Hr _ IH]; intros d e; [discriminate|].
  cbn [include_records]. unfold bind.
  destruct (include_record d r) as [d'|e'] eqn:Hi; [apply IH|].
  intros H. inversion H; subst. unfold include_record in Hi.
  destruct (py_getitem_nonempty _ Hr) as [x Hx]. rewrite Hx in Hi.
  cbn [bind] in Hi. now apply include_at_err in Hi.
Qed.

(** X20.  Converting rows to a JSON object raises nothing but what the
    reader raises (a [ValueError], a format exception, the verification
    failure of a negative marker) and the [TypeError] of a name that runs
    into a string or a list of the object being built. *)
Theorem rows_to_json_errors (rows : list row) (col skip : Z) (e : exn) :
  rows_to_json rows col skip = Err e ->
  e = ValueError \/ e = TypeError \/ (exists f, e = CSVFormatException f)
  \/ (exists n, (n < 0)%Z
                /\ e = CSVRecordVerificationFailure (ArrayLengthMismatch n 0)).
Proof.
  unfold rows_to_json, bind.
  destruct (read_records_from_csv rows col skip) as [records|e'] eqn:Hr.
  - intros H. right. left.
    apply (include_records_errors records) with (d := []); [|exact H].
    apply Forall_forall. intros r Hin.
    unfold read_records_from_csv, bind in Hr.
    destruct (__verify_values_column col); [|discriminate].
    destruct (read_all_records col _) as [cs|]; [|discriminate].
    destruct (map_result_In _ _ _ _ Hr Hin) as (c & _ & Hc).
    unfold to_pure_record, bind in Hc.
    destruct (if String.eqb (type c) TYPE_SCALAR then _ else _);
      [|discriminate].
    inversion Hc. cbn. apply split_nonempty.
  - intros H. inversion H; subst.
    pose proof Hr as Hr'. revert Hr'.
    unfold read_records_from_csv, __verify_values_column.
    destruct (Z.ltb_spec col 1) as [Hlow|Hcol];
      [intros H'; inversion H'; now left|].
    cbn [bind]. unfold read_all_records.
    pose proof (read_all_loop_spec col
                  (length (skip_iter_items rows skip))
                  (skip_iter_items rows skip) Hcol) as Hs.
    destruct (read_all_loop col _ _) as [cs|e'']; cbn [bind].
    + destruct (map_result_to_pure_record cs Hs) as [records ->].
      discriminate.
    + intros H'. inversion H'; subst.
      destruct Hs as [->|[Hf|Hn]]; [now left|right; right; now left|].
      right. right. now right.
Qed.

Lemma rows_to_json_errors_witness :
  TypeError = ValueError \/ TypeError = TypeError
  \/ (exists f, TypeError = CSVFormatException f)
  \/ (exists n, (n < 0)%Z
                /\ TypeError
                   = CSVRecordVerificationFailure (ArrayLengthMismatch n 0)).
Proof.
  apply (rows_to_json_errors
           [["-"; "A"]; [""; "x"]; ["-"; "A::B"]; [""; "y"]] 1 0).
  reflexivity.
Defined.
